(** * mail-template: a shallow embedding of [GmailMailer]

    The development follows [mailer.ts]: the attachment normalisation
    ([resolveAttachmentPath], [processAttachments]) and the three send
    operations ([sendEmail], [sendBulkEmails], [sendTemplatedEmails]).

    JavaScript values are modelled by their TypeScript types: an optional
    field [f?: T] is an [option T], a union [string | string[]] is an
    inductive type, and the truthiness tests of the source ([if (x)],
    [x || y], [!!x]) are written out as boolean functions. Exceptions are
    explicit: a computation ends in a [Completion], and the effects of a
    call (console warnings, calls of the transport) are recorded in a log. *)

From Stdlib Require Import String Ascii Bool Arith Lia.
From stdpp Require Import base list strings.

Open Scope string_scope.
Open Scope list_scope.

(** ** JavaScript strings *)

Module Js.

(** [s.length === 0]: the only falsy string. *)
Definition str_empty (s : string) : bool :=
  match s with EmptyString => true | String _ _ => false end.

(** Truthiness of a value of type [string | undefined]. *)
Definition truthy_str (o : option string) : bool :=
  match o with
  | Some s => negb (str_empty s)
  | None => false
  end.

(** The string that passes [if (o)], if [o] does. *)
Definition truthy_value (o : option string) : option string :=
  match o with
  | Some s => if str_empty s then None else Some s
  | None => None
  end.

(** Truthiness of an optional object (objects are always truthy). *)
Definition truthy_obj {A : Type} (o : option A) : bool :=
  match o with Some _ => true | None => false end.

(** [o !== undefined] *)
Definition defined {A : Type} (o : option A) : bool :=
  match o with Some _ => true | None => false end.

(** [s || dflt] for a [string | undefined] left operand and a string
    right operand. *)
Definition or_str (o : option string) (dflt : string) : string :=
  match o with
  | Some s => if str_empty s then dflt else s
  | None => dflt
  end.

(** [xs.join(sep)] on an array of strings. *)
Definition join (sep : string) (xs : list string) : string :=
  String.concat sep xs.

(** [s.startsWith(p)] *)
Definition startsWith (s p : string) : bool := String.prefix p s.

(** [s.slice(n)] for [0 <= n]. *)
Fixpoint drop (n : nat) (s : string) : string :=
  match n, s with
  | O, _ => s
  | S k, String _ rest => drop k rest
  | S _, EmptyString => EmptyString
  end.

(** [s.slice(0, n)] for [0 <= n]. *)
Fixpoint take (n : nat) (s : string) : string :=
  match n, s with
  | S k, String c rest => String c (take k rest)
  | _, _ => EmptyString
  end.

(** ECMAScript [GetSubstitution] for a match of a pattern without capture
    groups: in the replacement string, [$$] stands for a dollar sign,
    [$&] for the matched text, [$`] for the text before the match and
    [$'] for the text after it; every other character, and a dollar sign
    followed by anything else, is copied. *)
Fixpoint getSubstitution (matched before after replacement : string) : string :=
  match replacement with
  | EmptyString => EmptyString
  | String a tail =>
      if Ascii.eqb a "$" then
        match tail with
        | EmptyString => String a EmptyString
        | String c rest =>
            if Ascii.eqb c "$" then
              String "$" (getSubstitution matched before after rest)
            else if Ascii.eqb c "&" then
              matched +:+ getSubstitution matched before after rest
            else if Ascii.eqb c "`" then
              before +:+ getSubstitution matched before after rest
            else if Ascii.eqb c "'" then
              after +:+ getSubstitution matched before after rest
            else String a (getSubstitution matched before after tail)
        end
      else String a (getSubstitution matched before after tail)
  end.

(** The scan of [whole.replace(/pat/g, replacement)] for a regular
    expression that matches the literal, non-empty text [pat]: [s] is the
    part of [whole] from position [pos] on, and [skip] counts the
    characters of the last match that are still to be consumed. Matches
    are found left to right and do not overlap. *)
Fixpoint replace_scan (pat replacement whole : string) (pos skip : nat)
    (s : string) : string :=
  match s with
  | EmptyString => EmptyString
  | String c rest =>
      match skip with
      | S k => replace_scan pat replacement whole (S pos) k rest
      | O =>
          if String.prefix pat s then
            getSubstitution pat (take pos whole)
              (drop (pos + String.length pat) whole) replacement
            +:+ replace_scan pat replacement whole (S pos)
                 (String.length pat - 1) rest
          else String c (replace_scan pat replacement whole (S pos) 0 rest)
      end
  end.

(** [s.replace(/pat/g, replacement)] *)
Definition replaceGlobal (pat replacement s : string) : string :=
  replace_scan pat replacement s 0 0 s.

(** The same scan with the replacement taken literally: what
    [s.replaceAll(pat, () => replacement)] computes. *)
Fixpoint replace_literal (pat replacement : string) (skip : nat)
    (s : string) : string :=
  match s with
  | EmptyString => EmptyString
  | String c rest =>
      match skip with
      | S k => replace_literal pat replacement k rest
      | O =>
          if String.prefix pat s then
            replacement
            +:+ replace_literal pat replacement (String.length pat - 1) rest
          else String c (replace_literal pat replacement 0 rest)
      end
  end.

(** [pat] occurs somewhere in [s]. *)
Fixpoint occurs (pat s : string) : bool :=
  String.prefix pat s
  || match s with
     | EmptyString => false
     | String _ rest => occurs pat rest
     end.

(** The character [c] occurs in [s]. *)
Fixpoint has_char (c : ascii) (s : string) : bool :=
  match s with
  | EmptyString => false
  | String a rest => Ascii.eqb a c || has_char c rest
  end.

End Js.

(** ** Node's [path.resolve] on POSIX

    [path.resolve(process.cwd(), p)]: the external library function, in
    terms of path segments. [cwd] is what [process.cwd()] returns, an
    absolute path. *)

Module Path.

(** Split at every ["/"]. *)
Fixpoint split_go (cur : string) (s : string) : list string :=
  match s with
  | EmptyString => [cur]
  | String c rest =>
      if Ascii.eqb c "/" then cur :: split_go EmptyString rest
      else split_go (cur +:+ String c EmptyString) rest
  end.

Definition segments (s : string) : list string := split_go EmptyString s.

(** One segment of the normalisation below the root: empty segments and
    ["."] are dropped, [".."] removes the last segment kept so far (and
    does nothing at the root). *)
Definition push_segment (stack : list string) (seg : string) : list string :=
  if String.eqb seg "" || String.eqb seg "." then stack
  else if String.eqb seg ".." then removelast stack
  else stack ++ [seg].

Definition normalize (segs : list string) : list string :=
  fold_left push_segment segs [].

Definition isAbsolute (p : string) : bool := String.prefix "/" p.

Definition resolve (cwd p : string) : string :=
  let joined :=
    if isAbsolute p then p
    else if Js.str_empty p then cwd
    else cwd +:+ "/" +:+ p in
  "/" +:+ Js.join "/" (normalize (segments joined)).

End Path.

(** ** [resolveAttachmentPath] *)

Definition placeholder : string := "{{assetsDir}}".

(** The process environment the resolver reads. *)
Record Env := {
  ASSETS_DIR : option string;   (* process.env.ASSETS_DIR *)
  cwd : string;                 (* process.cwd() *)
}.

Definition assetsDir (env : Env) : string :=
  Js.or_str (ASSETS_DIR env) "./src".

Definition resolveAttachmentPath (env : Env) (path : string) : string :=
  let resolvedPath := Js.replaceGlobal placeholder (assetsDir env) path in
  if Js.startsWith resolvedPath "./" || Js.startsWith resolvedPath "../"
  then Path.resolve (cwd env) resolvedPath
  else resolvedPath.

(** ** Data model ([mailer.ts], [config.ts]) *)

(** [string | string[]] *)
Inductive Recipients :=
  | One (address : string)
  | Many (addresses : list string).

(** [string | Buffer] *)
Inductive Content :=
  | Str (s : string)
  | Buffer (bytes : list Byte.byte).

(** A [Readable] is an object: only its identity matters here. *)
Inductive Readable := StreamRef (handle : nat).

Inductive Disposition := inline | attachment.

Module Config.
Record t := {
  GMAIL_USER : string;
  GMAIL_APP_PASSWORD : string;
  GMAIL_FROM_NAME : string;
}.
End Config.

Module EmailOptions.
Record t := {
  to : Recipients;
  subject : string;
  content : string;
  html : option bool;
}.
End EmailOptions.

Module EmailAttachment.
Record t := {
  filename : string;
  contentType : string;
  cid : option string;
  disposition : option Disposition;
  path : option string;
  content : option Content;
  stream : option Readable;
  encoding : option string;
}.

(** The same attachment with another [path] field. *)
Definition set_path (v : option string) (a : t) : t :=
  {| filename := filename a; contentType := contentType a; cid := cid a;
     disposition := disposition a; path := v; content := content a;
     stream := stream a; encoding := encoding a |}.
End EmailAttachment.

Module EmailTemplate.
Record t := {
  id : string;
  subject : string;
  html : option string;
  text : option string;
  to : option Recipients;
  attachments : list EmailAttachment.t;
}.
End EmailTemplate.

(** The object [processAttachments] builds for nodemailer. *)
Module ProcessedAttachment.
Record t := {
  filename : string;
  contentType : string;
  cid : option string;
  contentDisposition : option Disposition;
  path : option string;
  content : option Content;
  raw : option Readable;
  encoding : option string;
}.

Definition with_path (v : string) (p : t) : t :=
  {| filename := filename p; contentType := contentType p; cid := cid p;
     contentDisposition := contentDisposition p; path := Some v;
     content := content p; raw := raw p; encoding := encoding p |}.

Definition with_content (v : Content) (p : t) : t :=
  {| filename := filename p; contentType := contentType p; cid := cid p;
     contentDisposition := contentDisposition p; path := path p;
     content := Some v; raw := raw p; encoding := encoding p |}.

Definition with_encoding (v : string) (p : t) : t :=
  {| filename := filename p; contentType := contentType p; cid := cid p;
     contentDisposition := contentDisposition p; path := path p;
     content := content p; raw := raw p; encoding := Some v |}.

Definition with_raw (v : Readable) (p : t) : t :=
  {| filename := filename p; contentType := contentType p; cid := cid p;
     contentDisposition := contentDisposition p; path := path p;
     content := content p; raw := Some v; encoding := encoding p |}.

Definition with_cid (v : string) (p : t) : t :=
  {| filename := filename p; contentType := contentType p; cid := Some v;
     contentDisposition := contentDisposition p; path := path p;
     content := content p; raw := raw p; encoding := encoding p |}.

Definition with_contentDisposition (v : Disposition) (p : t) : t :=
  {| filename := filename p; contentType := contentType p; cid := cid p;
     contentDisposition := Some v; path := path p;
     content := content p; raw := raw p; encoding := encoding p |}.
End ProcessedAttachment.

(** The message handed to [transporter.sendMail]. *)
Module MailOptions.
Record sender := { name : string; address : string }.
Record t := {
  from : sender;
  to : string;
  subject : string;
  text : option string;
  html : option string;
  attachments : option (list ProcessedAttachment.t);
}.
End MailOptions.

(** What [sendMail] resolves with. *)
Module SentMessageInfo.
Record t := { messageId : string }.
End SentMessageInfo.

(** [{ success; messageId?; error? }] *)
Module SendResult.
Record t := {
  success : bool;
  messageId : option string;
  error : option string;
}.
End SendResult.

(** [{ success; messageId?; error?; to }] *)
Module BulkResult.
Record t := {
  success : bool;
  messageId : option string;
  error : option string;
  to : string;
}.
End BulkResult.

(** [{ success; messageId?; error?; templateId; to }] *)
Module TemplatedResult.
Record t := {
  success : bool;
  messageId : option string;
  error : option string;
  templateId : string;
  to : string;
}.
End TemplatedResult.

(** ** Exceptions, promises and effects *)

(** A thrown value: an instance of [Error] with its message, or any other
    value, of which only the [message] property (if it has one) is read. *)
Inductive Thrown :=
  | ErrorObj (message : string)
  | NonError (message : option string).

(** How the evaluation of a function body, or of an awaited promise,
    ends. [Pending] is a promise that never settles. *)
Inductive Completion (A : Type) :=
  | Normal (value : A)
  | Throw (reason : Thrown)
  | Pending.
Arguments Normal {A} value.
Arguments Throw {A} reason.
Arguments Pending {A}.

(** An element of the array [Promise.allSettled] resolves with. *)
Inductive PromiseSettledResult (A : Type) :=
  | fulfilled (value : A)
  | rejected (reason : Thrown).
Arguments fulfilled {A} value.
Arguments rejected {A} reason.

(** What a call leaves behind besides its result. *)
Inductive Event :=
  | Warn (message : string)                 (* console.warn *)
  | SendMail (mailOptions : MailOptions.t). (* transporter.sendMail *)

(** How the transport answers a [sendMail] call: the promise it returns is
    assumed to settle. *)
Inductive SendOutcome :=
  | Accepted (info : SentMessageInfo.t)
  | Refused (reason : Thrown).

(** [recipient] truthiness: an array is an object, hence truthy even when
    empty; a string is truthy when non-empty. *)
Definition truthy_recipients (o : option Recipients) : bool :=
  match o with
  | Some (One s) => negb (Js.str_empty s)
  | Some (Many _) => true
  | None => false
  end.

(** The recipient that passes [if (to)], if [to] does. *)
Definition truthy_recipients_value (o : option Recipients) : option Recipients :=
  if truthy_recipients o then o else None.

(** [a || b] on [string | string[] | undefined] *)
Definition or_recipients (a b : option Recipients) : option Recipients :=
  if truthy_recipients a then a else b.

(** [a ?? b]: the nullish reading of the recipient fallback. *)
Definition nullish_recipients (a b : option Recipients) : option Recipients :=
  match a with Some _ => a | None => b end.

(** [Array.isArray(to) ? to.join(', ') : to] *)
Definition joinRecipients (to : Recipients) : string :=
  match to with
  | Many addresses => Js.join ", " addresses
  | One address => address
  end.

(** [reason?.message || 'send failed'] *)
Definition reasonMessage (reason : Thrown) : string :=
  match reason with
  | ErrorObj message => Js.or_str (Some message) "send failed"
  | NonError message => Js.or_str message "send failed"
  end.

(** ** Effects

    A computation runs in a world made of the state [T] of the transport
    and the log of what has happened so far. *)

Section Effects.

Context {T : Type}.

Record World := {
  transport : T;
  log : list Event;
}.

Definition M (A : Type) : Type := World -> Completion A * World.

Definition ret {A} (a : A) : M A := fun w => (Normal a, w).

Definition throw {A} (reason : Thrown) : M A := fun w => (Throw reason, w).

Definition bind {A B} (m : M A) (k : A -> M B) : M B :=
  fun w =>
    match m w with
    | (Normal a, w') => k a w'
    | (Throw reason, w') => (Throw reason, w')
    | (Pending, w') => (Pending, w')
    end.

(** [try { body } catch (error) { handler }] *)
Definition try_catch {A} (body : M A) (handler : Thrown -> M A) : M A :=
  fun w =>
    match body w with
    | (Throw reason, w') => handler reason w'
    | r => r
    end.

(** The world after one more event. *)
Definition after (w : World) (e : Event) : World :=
  {| transport := transport w; log := log w ++ [e] |}.

Definition emit (e : Event) : M unit := fun w => (Normal tt, after w e).

(** [console.warn(message)] *)
Definition console_warn (message : string) : M unit := emit (Warn message).

(** Calling an [async] function: the body runs, and however it ends is
    the state of the promise the call returns; the call itself never
    throws. *)
Definition async {A} (body : M A) : M (Completion A) :=
  fun w => let (c, w') := body w in (Normal c, w').

(** [await p] *)
Definition await {A} (p : Completion A) : M A := fun w => (p, w).

(** [xs.map(f)] for a callback with effects: left to right, and a throw
    ends the traversal. *)
Fixpoint Array_map {A B} (f : A -> M B) (xs : list A) : M (list B) :=
  match xs with
  | [] => ret []
  | x :: rest =>
      bind (f x) (fun y => bind (Array_map f rest) (fun ys => ret (y :: ys)))
  end.

End Effects.

Arguments World : clear implicits.
Arguments M : clear implicits.

Notation "'let!' x ':=' m 'in' k" := (bind m (fun x => k))
  (at level 10, x name, m at level 100, k at level 200).
Notation "'do!' m 'in' k" := (bind m (fun _ => k))
  (at level 10, m at level 100, k at level 200).

(** ** [Promise.allSettled]

    The promises settle in the order of [schedule], a list of indices;
    each settlement stores its result in the slot of its own index, and
    the combined promise resolves with the array of results once no slot
    is empty. It never rejects. *)

Section AllSettled.

Context {A : Type}.

(** The result a promise in a given state is recorded with, once it has
    settled. *)
Definition settledResult (p : Completion A) : option (PromiseSettledResult A) :=
  match p with
  | Normal value => Some (fulfilled value)
  | Throw reason => Some (rejected reason)
  | Pending => None
  end.

Definition settle (promises : list (Completion A))
    (slots : list (option (PromiseSettledResult A))) (index : nat)
    : list (option (PromiseSettledResult A)) :=
  match promises !! index ≫= settledResult with
  | Some result => <[index := Some result]> slots
  | None => slots
  end.

Definition settle_all (promises : list (Completion A)) (schedule : list nat)
    : list (option (PromiseSettledResult A)) :=
  fold_left (settle promises) schedule (replicate (length promises) None).

Fixpoint filled (slots : list (option (PromiseSettledResult A)))
    : option (list (PromiseSettledResult A)) :=
  match slots with
  | [] => Some []
  | Some r :: rest =>
      match filled rest with
      | Some rs => Some (r :: rs)
      | None => None
      end
  | None :: _ => None
  end.

Definition allSettled (promises : list (Completion A)) (schedule : list nat)
    : Completion (list (PromiseSettledResult A)) :=
  match filled (settle_all promises schedule) with
  | Some results => Normal results
  | None => Pending
  end.

End AllSettled.

(** ** The mailer

    [config] is [this.config]; the transporter is the state [T] of the
    outside world together with [sendMail], which answers a call in a
    given state; [existsSync] is the file system as the process sees it. *)

Section Mailer.

Context {T : Type}.
Variable config : Config.t.
Variable env : Env.
Variable existsSync : string -> bool.
Variable sendMail : MailOptions.t -> T -> SendOutcome * T.

(** [await this.transporter.sendMail(mailOptions)] *)
Definition await_sendMail (mailOptions : MailOptions.t)
    : M T SentMessageInfo.t :=
  fun w =>
    let (outcome, t') := sendMail mailOptions (transport w) in
    let w' := {| transport := t'; log := log w ++ [SendMail mailOptions] |} in
    match outcome with
    | Accepted info => (Normal info, w')
    | Refused reason => (Throw reason, w')
    end.

Definition sender : MailOptions.sender :=
  {| MailOptions.name := Config.GMAIL_FROM_NAME config;
     MailOptions.address := Config.GMAIL_USER config |}.

(** *** [sendEmail] *)

(** The [mailOptions] object literal of [sendEmail]; the computed key
    [options.html ? 'html' : 'text'] selects the one body field. *)
Definition emailMailOptions (options : EmailOptions.t) : MailOptions.t :=
  let isHtml := default false (EmailOptions.html options) in
  {| MailOptions.from := sender;
     MailOptions.to := joinRecipients (EmailOptions.to options);
     MailOptions.subject := EmailOptions.subject options;
     MailOptions.text :=
       if isHtml then None else Some (EmailOptions.content options);
     MailOptions.html :=
       if isHtml then Some (EmailOptions.content options) else None;
     MailOptions.attachments := None |}.

Definition sendEmail (options : EmailOptions.t) : M T SendResult.t :=
  try_catch
    (let mailOptions := emailMailOptions options in
     let! info := await_sendMail mailOptions in
     ret {| SendResult.success := true;
            SendResult.messageId := Some (SentMessageInfo.messageId info);
            SendResult.error := None |})
    (fun error =>
       let errorMessage :=
         match error with
         | ErrorObj message => message
         | NonError _ => "unknown error"
         end in
       ret {| SendResult.success := false;
              SendResult.messageId := None;
              SendResult.error := Some errorMessage |}).

(** *** [sendBulkEmails] *)

(** The [async (email) => ...] callback. *)
Definition bulkTask (email : EmailOptions.t) : M T BulkResult.t :=
  let! result := bind (async (sendEmail email)) await in
  ret {| BulkResult.success := SendResult.success result;
         BulkResult.messageId := SendResult.messageId result;
         BulkResult.error := SendResult.error result;
         BulkResult.to := joinRecipients (EmailOptions.to email) |}.

(** The [(result, index) => ...] callback. *)
Definition bulkResult (emails : list EmailOptions.t) (index : nat)
    (result : PromiseSettledResult BulkResult.t) : BulkResult.t :=
  match result with
  | fulfilled value => value
  | rejected reason =>
      {| BulkResult.success := false;
         BulkResult.messageId := None;
         BulkResult.error := Some (reasonMessage reason);
         BulkResult.to :=
           match EmailOptions.to <$> emails !! index with
           | Some (Many addresses) => Js.join ", " addresses
           | Some (One address) => Js.or_str (Some address) "unknown"
           | None => "unknown"
           end |}
  end.

Definition sendBulkEmails (emails : list EmailOptions.t) (schedule : list nat)
    : M T (list BulkResult.t) :=
  let! promises := Array_map (fun email => async (bulkTask email)) emails in
  let! results := await (allSettled promises schedule) in
  ret (imap (bulkResult emails) results).

(** *** [processAttachments] *)

Definition missingSourceMessage (attachment : EmailAttachment.t) : string :=
  "Attachment " +:+ EmailAttachment.filename attachment
  +:+ " must have either 'path', 'content', or 'stream'".

Definition notFoundWarning (resolvedPath : string) : string :=
  "Warning: Attachment file not found: " +:+ resolvedPath.

(** The [(attachment) => ...] callback. *)
Definition processAttachment (attachment : EmailAttachment.t)
    : M T ProcessedAttachment.t :=
  let processedAttachment :=
    {| ProcessedAttachment.filename := EmailAttachment.filename attachment;
       ProcessedAttachment.contentType := EmailAttachment.contentType attachment;
       ProcessedAttachment.cid := None;
       ProcessedAttachment.contentDisposition := None;
       ProcessedAttachment.path := None;
       ProcessedAttachment.content := None;
       ProcessedAttachment.raw := None;
       ProcessedAttachment.encoding := None |} in
  let! processedAttachment :=
    match Js.truthy_value (EmailAttachment.path attachment) with
    | Some path =>
        let resolvedPath := resolveAttachmentPath env path in
        do! (if negb (existsSync resolvedPath)
             then console_warn (notFoundWarning resolvedPath)
             else ret tt) in
        ret (ProcessedAttachment.with_path resolvedPath processedAttachment)
    | None =>
        match EmailAttachment.content attachment with
        | Some content =>
            let processedAttachment :=
              ProcessedAttachment.with_content content processedAttachment in
            ret match Js.truthy_value (EmailAttachment.encoding attachment) with
                | Some encoding =>
                    ProcessedAttachment.with_encoding encoding processedAttachment
                | None => processedAttachment
                end
        | None =>
            match EmailAttachment.stream attachment with
            | Some stream =>
                ret (ProcessedAttachment.with_raw stream processedAttachment)
            | None =>
                throw (ErrorObj (missingSourceMessage attachment))
            end
        end
    end in
  let processedAttachment :=
    match Js.truthy_value (EmailAttachment.cid attachment) with
    | Some cid => ProcessedAttachment.with_cid cid processedAttachment
    | None => processedAttachment
    end in
  let processedAttachment :=
    match EmailAttachment.disposition attachment with
    | Some disposition =>
        ProcessedAttachment.with_contentDisposition disposition
          processedAttachment
    | None => processedAttachment
    end in
  ret processedAttachment.

Definition processAttachments (attachments : list EmailAttachment.t)
    : M T (list ProcessedAttachment.t) :=
  Array_map processAttachment attachments.

(** *** [sendTemplatedEmails] *)

(** The two error messages of the callback. *)
Definition noRecipientMessage (template : EmailTemplate.t) : string :=
  "Template " +:+ EmailTemplate.id template +:+ " has no recipient specified".

Definition noContentMessage (template : EmailTemplate.t) : string :=
  "Template " +:+ EmailTemplate.id template +:+ " has no content (html or text)".

(** The [mailOptions] of a template, once the body fields are assigned. *)
Definition templateMailOptions (template : EmailTemplate.t) (to : Recipients)
    (processedAttachments : list ProcessedAttachment.t) : MailOptions.t :=
  let hasHtml := Js.truthy_str (EmailTemplate.html template) in
  let hasText := Js.truthy_str (EmailTemplate.text template) in
  {| MailOptions.from := sender;
     MailOptions.to := joinRecipients to;
     MailOptions.subject := EmailTemplate.subject template;
     MailOptions.text :=
       if hasHtml
       then (if hasText then EmailTemplate.text template else None)
       else EmailTemplate.text template;
     MailOptions.html :=
       if hasHtml then EmailTemplate.html template else None;
     MailOptions.attachments := Some processedAttachments |}.

(** The [async (template) => ...] callback. *)
Definition templateTask (defaultTo : option Recipients)
    (template : EmailTemplate.t) : M T TemplatedResult.t :=
  match truthy_recipients_value
          (or_recipients (EmailTemplate.to template) defaultTo) with
  | None => throw (ErrorObj (noRecipientMessage template))
  | Some to =>
      let hasHtml := Js.truthy_str (EmailTemplate.html template) in
      let hasText := Js.truthy_str (EmailTemplate.text template) in
      let content :=
        if hasHtml then default "" (EmailTemplate.html template)
        else if hasText then default "" (EmailTemplate.text template)
        else "" in
      if Js.str_empty content then
        throw (ErrorObj (noContentMessage template))
      else
        let! processedAttachments :=
          processAttachments (EmailTemplate.attachments template) in
        let mailOptions :=
          templateMailOptions template to processedAttachments in
        let! info := await_sendMail mailOptions in
        ret {| TemplatedResult.success := true;
               TemplatedResult.messageId :=
                 Some (SentMessageInfo.messageId info);
               TemplatedResult.error := None;
               TemplatedResult.templateId := EmailTemplate.id template;
               TemplatedResult.to := joinRecipients to |}
  end.

(** The [(result, index) => ...] callback. *)
Definition templatedResult (templates : list EmailTemplate.t)
    (defaultTo : option Recipients) (index : nat)
    (result : PromiseSettledResult TemplatedResult.t) : TemplatedResult.t :=
  match result with
  | fulfilled value => value
  | rejected reason =>
      let template := templates !! index in
      {| TemplatedResult.success := false;
         TemplatedResult.messageId := None;
         TemplatedResult.error := Some (reasonMessage reason);
         TemplatedResult.templateId :=
           Js.or_str (EmailTemplate.id <$> template) "unknown";
         TemplatedResult.to :=
           let recipient :=
             or_recipients (template ≫= EmailTemplate.to) defaultTo in
           match recipient with
           | Some (Many addresses) => Js.join ", " addresses
           | Some (One address) => Js.or_str (Some address) "unknown"
           | None => "unknown"
           end |}
  end.

Definition sendTemplatedEmails (templates : list EmailTemplate.t)
    (defaultTo : option Recipients) (schedule : list nat)
    : M T (list TemplatedResult.t) :=
  let! promises :=
    Array_map (fun template => async (templateTask defaultTo template))
      templates in
  let! results := await (allSettled promises schedule) in
  ret (imap (templatedResult templates defaultTo) results).

End Mailer.

(** ** Vocabulary of the statements *)

(** What every resolved attachment takes over from its specification. *)
Definition carried (a : EmailAttachment.t) (r : ProcessedAttachment.t) : Prop :=
  ProcessedAttachment.filename r = EmailAttachment.filename a
  /\ ProcessedAttachment.contentType r = EmailAttachment.contentType a
  /\ ProcessedAttachment.cid r = Js.truthy_value (EmailAttachment.cid a)
  /\ ProcessedAttachment.contentDisposition r = EmailAttachment.disposition a.

(** The attachment passes one of the three source tests of
    [processAttachments]. *)
Definition hasSource (a : EmailAttachment.t) : bool :=
  Js.truthy_str (EmailAttachment.path a)
  || Js.defined (EmailAttachment.content a)
  || Js.truthy_obj (EmailAttachment.stream a).

(** The recipient of a template, if the test [if (!to)] of the callback
    lets one through, and its test on the content. *)
Definition recipientOf (defaultTo : option Recipients) (t : EmailTemplate.t)
    : option Recipients :=
  truthy_recipients_value (or_recipients (EmailTemplate.to t) defaultTo).

Definition hasContent (t : EmailTemplate.t) : bool :=
  Js.truthy_str (EmailTemplate.html t) || Js.truthy_str (EmailTemplate.text t).

(** A computation that settles, leaves the transport alone and at most
    logs warnings. *)
Definition quiet {T A} (m : M T A) (w : World T) : Prop :=
  exists c w' warnings,
    m w = (c, w') /\ c <> Pending
    /\ transport w' = transport w
    /\ log w' = log w ++ (Warn <$> warnings).

(** ** Concrete inputs

    A configuration, an environment, a file system and two transports on
    which the operations are run below. The transport state counts the
    messages accepted so far. *)

Definition demoConfig : Config.t :=
  {| Config.GMAIL_USER := "sender@example.com";
     Config.GMAIL_APP_PASSWORD := "secret";
     Config.GMAIL_FROM_NAME := "mailer" |}.

Definition demoEnv : Env :=
  {| ASSETS_DIR := Some "/tmp/assets"; cwd := "/work" |}.

(** Only the logo exists. *)
Definition demoExists (p : string) : bool := String.eqb p "/tmp/assets/logo.png".

(** Accepts every message, naming it after its subject. *)
Definition acceptAll (m : MailOptions.t) (n : nat) : SendOutcome * nat :=
  (Accepted {| SentMessageInfo.messageId := "<" +:+ MailOptions.subject m +:+ ">" |},
   S n).

(** Refuses the messages addressed to [bad@x.com] and accepts the others. *)
Definition refuseBad (m : MailOptions.t) (n : nat) : SendOutcome * nat :=
  if String.eqb (MailOptions.to m) "bad@x.com"
  then (Refused (ErrorObj "550 mailbox unavailable"), n)
  else acceptAll m n.

Definition world0 : World nat := {| transport := 0; log := [] |}.

Definition plainEmail (to : Recipients) : EmailOptions.t :=
  {| EmailOptions.to := to;
     EmailOptions.subject := "S";
     EmailOptions.content := "C";
     EmailOptions.html := Some false |}.

Definition noAttachment (filename : string) : EmailAttachment.t :=
  {| EmailAttachment.filename := filename;
     EmailAttachment.contentType := "text/plain";
     EmailAttachment.cid := None;
     EmailAttachment.disposition := None;
     EmailAttachment.path := None;
     EmailAttachment.content := None;
     EmailAttachment.stream := None;
     EmailAttachment.encoding := None |}.

Definition pathAttachment (filename path : string) : EmailAttachment.t :=
  {| EmailAttachment.filename := filename;
     EmailAttachment.contentType := "image/png";
     EmailAttachment.cid := Some "logoCid";
     EmailAttachment.disposition := Some inline;
     EmailAttachment.path := Some path;
     EmailAttachment.content := None;
     EmailAttachment.stream := None;
     EmailAttachment.encoding := None |}.

Definition contentAttachment (filename : string) (path : option string)
    (content : string) : EmailAttachment.t :=
  {| EmailAttachment.filename := filename;
     EmailAttachment.contentType := "text/plain";
     EmailAttachment.cid := Some "";
     EmailAttachment.disposition := None;
     EmailAttachment.path := path;
     EmailAttachment.content := Some (Str content);
     EmailAttachment.stream := None;
     EmailAttachment.encoding := Some "" |}.

Definition template (id : string) (html text : option string)
    (to : option Recipients) (attachments : list EmailAttachment.t)
    : EmailTemplate.t :=
  {| EmailTemplate.id := id;
     EmailTemplate.subject := "subject of " +:+ id;
     EmailTemplate.html := html;
     EmailTemplate.text := text;
     EmailTemplate.to := to;
     EmailTemplate.attachments := attachments |}.

Definition twoEmails : list EmailOptions.t :=
  [plainEmail (One "a@x.com"); plainEmail (One "bad@x.com")].

Definition opsDefault : option Recipients := Some (One "ops@example.com").

(** A template with an empty id and nothing else. *)
Definition anonymousTemplate : EmailTemplate.t := template "" None None None [].

(** A template whose own recipient is the empty string. *)
Definition emptyToTemplate : EmailTemplate.t :=
  template "t" None (Some "hello") (Some (One "")) [].

Definition bothBodiesTemplate : EmailTemplate.t :=
  template "t2" (Some "<p>h</p>") (Some "plain") None
    [pathAttachment "logo.png" "{{assetsDir}}/nologo.png"].

Definition twoTemplates : list EmailTemplate.t :=
  [anonymousTemplate; bothBodiesTemplate].

(** The resolved form of the attachment of [bothBodiesTemplate]. *)
Definition resolvedNoLogo : ProcessedAttachment.t :=
  {| ProcessedAttachment.filename := "logo.png";
     ProcessedAttachment.contentType := "image/png";
     ProcessedAttachment.cid := Some "logoCid";
     ProcessedAttachment.contentDisposition := Some inline;
     ProcessedAttachment.path := Some "/tmp/assets/nologo.png";
     ProcessedAttachment.content := None;
     ProcessedAttachment.raw := None;
     ProcessedAttachment.encoding := None |}.

(** An attachment with the empty string as content and no other source. *)
Definition emptyContentAttachment : EmailAttachment.t :=
  {| EmailAttachment.filename := "empty.txt";
     EmailAttachment.contentType := "text/plain";
     EmailAttachment.cid := None;
     EmailAttachment.disposition := None;
     EmailAttachment.path := None;
     EmailAttachment.content := Some (Str "");
     EmailAttachment.stream := None;
     EmailAttachment.encoding := None |}.

(** The answers of the transport to a sequence of messages, each call
    made in the state the previous one left. *)
Fixpoint answers {T} (sendMail : MailOptions.t -> T -> SendOutcome * T)
    (messages : list MailOptions.t) (t : T) : list SendOutcome * T :=
  match messages with
  | [] => ([], t)
  | m :: rest =>
      let (o, t1) := sendMail m t in
      let (os, t2) := answers sendMail rest t1 in
      (o :: os, t2)
  end.

(** The record [sendBulkEmails] returns for an input, given the answer of
    the transport to its message. *)
Definition bulkRecord (email : EmailOptions.t) (o : SendOutcome) : BulkResult.t :=
  match o with
  | Accepted info =>
      {| BulkResult.success := true;
         BulkResult.messageId := Some (SentMessageInfo.messageId info);
         BulkResult.error := None;
         BulkResult.to := joinRecipients (EmailOptions.to email) |}
  | Refused reason =>
      {| BulkResult.success := false;
         BulkResult.messageId := None;
         BulkResult.error :=
           Some match reason with
                | ErrorObj message => message
                | NonError _ => "unknown error"
                end;
         BulkResult.to := joinRecipients (EmailOptions.to email) |}
  end.

(** The number of transport calls in a log. *)
Definition isSend (e : Event) : bool :=
  match e with SendMail _ => true | Warn _ => false end.

Definition sends (events : list Event) : nat := length (filter isSend events).

(** The first attachment that passes none of the three source tests. *)
Definition firstSourceless (attachments : list EmailAttachment.t)
    : option EmailAttachment.t :=
  find (fun a => negb (hasSource a)) attachments.

(** A template that passes the three checks made before the transport
    is called: recipient, content, a source on every attachment. *)
Definition sendable (defaultTo : option Recipients) (t : EmailTemplate.t) : bool :=
  Js.truthy_obj (recipientOf defaultTo t)
  && hasContent t
  && forallb hasSource (EmailTemplate.attachments t).

(** The resolved paths of the path attachments whose file is missing. *)
Definition missingFiles (env : Env) (existsSync : string -> bool)
    (attachments : list EmailAttachment.t) : list string :=
  omap (fun a =>
          match Js.truthy_value (EmailAttachment.path a) with
          | Some p =>
              if existsSync (resolveAttachmentPath env p) then None
              else Some (resolveAttachmentPath env p)
          | None => None
          end)
       attachments.

(** A message with a sender and something to read. *)
Definition hasBody (m : MailOptions.t) : bool :=
  Js.truthy_str (MailOptions.html m) || Js.truthy_str (MailOptions.text m).

(** ** The test script ([test-templated.ts])

    [batchSendTemplates] fills in the recipient of every template before
    it calls [sendTemplatedEmails] without default recipient. *)

(** [process.env.TEST_RECIPIENT_EMAIL || 'recipient@example.com'] *)
Definition testRecipient (TEST_RECIPIENT_EMAIL : option string) : string :=
  Js.or_str TEST_RECIPIENT_EMAIL "recipient@example.com".

(** The callback [(template) => ({...template, to: template.to || recipient})] *)
Definition withRecipient (recipient : string) (template : EmailTemplate.t)
    : EmailTemplate.t :=
  {| EmailTemplate.id := EmailTemplate.id template;
     EmailTemplate.subject := EmailTemplate.subject template;
     EmailTemplate.html := EmailTemplate.html template;
     EmailTemplate.text := EmailTemplate.text template;
     EmailTemplate.to :=
       or_recipients (EmailTemplate.to template) (Some (One recipient));
     EmailTemplate.attachments := EmailTemplate.attachments template |}.


(** What a log entry of [sendTemplatedEmails] looks like: a warning, or a
    message from the configured sender with a non-empty body and a list
    of attachments. *)
Definition wellFormedEvent (config : Config.t) (e : Event) : Prop :=
  match e with
  | Warn _ => True
  | SendMail m =>
      MailOptions.from m = sender config
      /\ hasBody m = true
      /\ Js.defined (MailOptions.attachments m) = true
  end.

(** The failure record of a template with recipient [to]. *)
Definition failureRecord (t : EmailTemplate.t) (to : Recipients)
    (error : string) : TemplatedResult.t :=
  {| TemplatedResult.success := false;
     TemplatedResult.messageId := None;
     TemplatedResult.error := Some error;
     TemplatedResult.templateId := Js.or_str (Some (EmailTemplate.id t)) "unknown";
     TemplatedResult.to := joinRecipients to |}.

(** The world in which the callback of the element at [index] starts:
    [Array.prototype.map] runs the callbacks in input order, each in the
    world the one before it has left. *)
Definition worldAt {T A B} (task : A -> M T B) (xs : list A) (index : nat)
    (w : World T) : World T :=
  fold_left (fun w x => (task x w).2) (take index xs) w.

(** ** Configuration and the command line program ([config.ts], [index.ts])

    [process.env] after [dotenv.config()], the console, and the end of
    the process. The checks of the validation library and the transport
    library are parameters: [isEmail] is the e-mail test of the schema,
    [zodMessage] the message of the validation error, [createTransport]
    the transporter made for an account, [verify] its connection test. *)

Module ProcessEnv.
Record t := {
  GMAIL_USER : option string;
  GMAIL_APP_PASSWORD : option string;
  GMAIL_FROM_NAME : option string;
  TEST_RECIPIENT_EMAIL : option string;
  TEST_SUBJECT : option string;
  TEST_CONTENT : option string;
}.
End ProcessEnv.

(** An argument of [console.log] or [console.error]. *)
Inductive ConsoleArg :=
  | Text (s : string)
  | Value (v : Thrown)
  | Undefined.

Inductive Output :=
  | console_log (args : list ConsoleArg)
  | console_error (args : list ConsoleArg).

(** How a run of the program ends: the function returns, or
    [process.exit(code)] ends the process, or it waits for ever. *)
Inductive Exit :=
  | Returned
  | Exited (code : nat)
  | Waiting.   (* an awaited promise never settles *)

Record Run := {
  status : Exit;
  console : list Output;
  mail : list Event;
}.

Definition newline : string := String "010" EmptyString.

Section Scripts.

Context {T : Type}.
Variable isEmail : string -> bool.
Variable zodMessage : ProcessEnv.t -> option string.
Variable createTransport : string -> string -> T.
Variable verify : T -> option Thrown * T.
Variable sendMail : MailOptions.t -> T -> SendOutcome * T.

(** The schema: [GMAIL_USER] a string that is an e-mail address,
    [GMAIL_APP_PASSWORD] a string of at least one character,
    [GMAIL_FROM_NAME] an optional string, ['mailer'] when undefined. *)
Definition ConfigSchema_safeParse (penv : ProcessEnv.t) : option Config.t :=
  match ProcessEnv.GMAIL_USER penv, ProcessEnv.GMAIL_APP_PASSWORD penv with
  | Some user, Some password =>
      if isEmail user && Nat.leb 1 (String.length password)
      then Some {| Config.GMAIL_USER := user;
                   Config.GMAIL_APP_PASSWORD := password;
                   Config.GMAIL_FROM_NAME :=
                     default "mailer" (ProcessEnv.GMAIL_FROM_NAME penv) |}
      else None
  | _, _ => None
  end.

(** [loadConfig] returns the configuration or throws. *)
Definition loadConfig (penv : ProcessEnv.t) : Config.t + Thrown :=
  match ConfigSchema_safeParse penv with
  | Some data => inl data
  | None =>
      let errorMessages :=
        Js.or_str (zodMessage penv) "Unknown validation error" in
      inr (ErrorObj
        ("config validation failed:" +:+ newline +:+ errorMessages
         +:+ newline +:+ newline
         +:+ "please check the .env file for configuration items."))
  end.

(** [new GmailMailer(config)]: the transporter of the account. *)
Definition GmailMailer_transporter (config : Config.t) : T :=
  createTransport (Config.GMAIL_USER config) (Config.GMAIL_APP_PASSWORD config).

(** [verifyConnection]: the result, what it prints, and the transporter
    afterwards. *)
Definition verifyConnection (t : T) : bool * list Output * T :=
  match verify t with
  | (None, t') => (true, [], t')
  | (Some error, t') =>
      (false,
       [console_error [Text "config verification failed:"; Value error]],
       t')
  end.

(** [main] of [index.ts]. *)
Definition main (penv : ProcessEnv.t) : Run :=
  let out0 := [console_log [Text "loading config..."]] in
  match loadConfig penv with
  | inl config =>
      let out1 := out0 ++ [console_log [Text "✓ config loaded"]] in
      let t0 := GmailMailer_transporter config in
      let out2 := out1 ++ [console_log [Text "verifying Gmail connection..."]] in
      let '(isValid, printed, t1) := verifyConnection t0 in
      let out3 := out2 ++ printed in
      if negb isValid then
        {| status := Exited 1;
           console :=
             out3 ++ [console_error
                        [Text "❌ Gmail connection verification failed, please check the config"]];
           mail := [] |}
      else
        let out4 :=
          out3 ++ [console_log
                     [Text ("✓ Gmail connection verification successful" +:+ newline)]] in
        let emailOptions :=
          {| EmailOptions.to :=
               One (Js.or_str (ProcessEnv.TEST_RECIPIENT_EMAIL penv)
                      "recipient@example.com");
             EmailOptions.subject :=
               Js.or_str (ProcessEnv.TEST_SUBJECT penv) "default subject";
             EmailOptions.content :=
               Js.or_str (ProcessEnv.TEST_CONTENT penv) "default content";
             EmailOptions.html := Some false |} in
        let out5 :=
          out4 ++
          [console_log [Text "sending email..."];
           console_log [Text ("recipient: " +:+ joinRecipients (EmailOptions.to emailOptions))];
           console_log [Text ("subject: " +:+ EmailOptions.subject emailOptions)];
           console_log [Text ("content: " +:+ EmailOptions.content emailOptions
                              +:+ newline)]] in
        match sendEmail config sendMail emailOptions
                {| transport := t1; log := [] |} with
        | (Normal result, w) =>
            if SendResult.success result then
              {| status := Returned;
                 console :=
                   out5 ++
                   [console_log [Text "✓ email sent successfully!"];
                    console_log
                      [Text ("mail ID: "
                             +:+ default "undefined" (SendResult.messageId result))]];
                 mail := log w |}
            else
              {| status := Exited 1;
                 console :=
                   out5 ++
                   [console_error
                      [Text "❌ email sending failed:";
                       match SendResult.error result with
                       | Some e => Text e
                       | None => Undefined
                       end]];
                 mail := log w |}
        | (Throw error, w) =>
            {| status := Exited 1;
               console :=
                 out5 ++
                 [console_error
                    [Text "❌ program execution error:";
                     match error with
                     | ErrorObj message => Text message
                     | NonError _ => Value error
                     end]];
               mail := log w |}
        | (Pending, w) =>
            {| status := Waiting; console := out5; mail := log w |}
        end
  | inr error =>
      {| status := Exited 1;
         console :=
           out0 ++
           [console_error
              [Text "❌ program execution error:";
               match error with
               | ErrorObj message => Text message
               | NonError _ => Value error
               end]];
         mail := [] |}
  end.

End Scripts.

(** The [emailOptions] object [main] builds from the environment. *)
Definition mainOptions (penv : ProcessEnv.t) : EmailOptions.t :=
  {| EmailOptions.to :=
       One (Js.or_str (ProcessEnv.TEST_RECIPIENT_EMAIL penv)
              "recipient@example.com");
     EmailOptions.subject :=
       Js.or_str (ProcessEnv.TEST_SUBJECT penv) "default subject";
     EmailOptions.content :=
       Js.or_str (ProcessEnv.TEST_CONTENT penv) "default content";
     EmailOptions.html := Some false |}.

(** ** More concrete inputs *)

(** A template with text and one attachment that has no source. *)
Definition sourcelessTemplate : EmailTemplate.t :=
  template "t3" None (Some "txt") None [noAttachment "f.bin"].

Definition logoAttachment : EmailAttachment.t :=
  pathAttachment "logo.png" "{{assetsDir}}/logo.png".

Definition noLogoAttachment : EmailAttachment.t :=
  pathAttachment "logo.png" "{{assetsDir}}/nologo.png".

(** The resolved form of [logoAttachment]. *)
Definition resolvedLogo : ProcessedAttachment.t :=
  {| ProcessedAttachment.filename := "logo.png";
     ProcessedAttachment.contentType := "image/png";
     ProcessedAttachment.cid := Some "logoCid";
     ProcessedAttachment.contentDisposition := Some inline;
     ProcessedAttachment.path := Some "/tmp/assets/logo.png";
     ProcessedAttachment.content := None;
     ProcessedAttachment.raw := None;
     ProcessedAttachment.encoding := None |}.

(** An environment in which the program can run, and a connection test
    that always succeeds. *)
Definition demoProcessEnv : ProcessEnv.t :=
  {| ProcessEnv.GMAIL_USER := Some "sender@example.com";
     ProcessEnv.GMAIL_APP_PASSWORD := Some "secret";
     ProcessEnv.GMAIL_FROM_NAME := None;
     ProcessEnv.TEST_RECIPIENT_EMAIL := None;
     ProcessEnv.TEST_SUBJECT := Some "hello";
     ProcessEnv.TEST_CONTENT := Some "" |}.

(** A template with an id and nothing else: no recipient, no body. *)
Definition bareTemplate : EmailTemplate.t := template "t0" None None None [].

(** * Properties *)

(** ** Strings and paths *)

Lemma getSubstitution_no_dollar matched before after replacement :
  Js.has_char "$" replacement = false ->
  Js.getSubstitution matched before after replacement = replacement.
Proof.
  induction replacement as [|a tail IH]; simpl; [reflexivity|].
  intros H. apply orb_false_iff in H as [Ha Htail].
  rewrite Ha. f_equal. auto.
Qed.

Lemma replace_scan_literal pat replacement whole :
  Js.has_char "$" replacement = false ->
  forall s pos skip,
    Js.replace_scan pat replacement whole pos skip s
    = Js.replace_literal pat replacement skip s.
Proof.
  intros Hd. induction s as [|c rest IH]; intros pos skip; [reflexivity|].
  cbn [Js.replace_scan Js.replace_literal].
  destruct skip as [|k]; [|apply IH].
  destruct (String.prefix pat (String c rest)).
  - rewrite getSubstitution_no_dollar by assumption. f_equal. apply IH.
  - f_equal. apply IH.
Qed.

Lemma occurs_cons pat c rest :
  Js.occurs pat (String c rest) = false ->
  String.prefix pat (String c rest) = false /\ Js.occurs pat rest = false.
Proof. simpl Js.occurs. intros H. apply orb_false_iff in H. exact H. Qed.

Lemma replace_scan_absent pat replacement whole :
  forall s pos,
    Js.occurs pat s = false ->
    Js.replace_scan pat replacement whole pos 0 s = s.
Proof.
  induction s as [|c rest IH]; intros pos H; [reflexivity|].
  apply occurs_cons in H as [Hp Hrest].
  cbn [Js.replace_scan]. rewrite Hp. f_equal. apply IH, Hrest.
Qed.

Lemma replaceGlobal_absent pat replacement s :
  Js.occurs pat s = false -> Js.replaceGlobal pat replacement s = s.
Proof. apply replace_scan_absent. Qed.

Lemma replaceGlobal_literal pat replacement s :
  Js.has_char "$" replacement = false ->
  Js.replaceGlobal pat replacement s = Js.replace_literal pat replacement 0 s.
Proof. intros H. unfold Js.replaceGlobal. now apply replace_scan_literal. Qed.

Lemma resolve_isAbsolute cwd p : Path.isAbsolute (Path.resolve cwd p) = true.
Proof.
  unfold Path.isAbsolute, Path.resolve. cbv zeta.
  generalize (Js.join "/" (Path.normalize (Path.segments
    (if Path.isAbsolute p then p
     else if Js.str_empty p then cwd else cwd +:+ "/" +:+ p)))).
  intros rest. destruct rest; reflexivity.
Qed.

(** With a setting free of dollar signs, every occurrence of the
    placeholder is replaced by the setting itself, and the result is
    resolved against the working directory exactly when it starts with
    [./] or [../]. *)
Lemma resolveAttachmentPath_literal env path :
  Js.has_char "$" (assetsDir env) = false ->
  let substituted := Js.replace_literal placeholder (assetsDir env) 0 path in
  resolveAttachmentPath env path
  = if Js.startsWith substituted "./" || Js.startsWith substituted "../"
    then Path.resolve (cwd env) substituted
    else substituted.
Proof.
  intros H. unfold resolveAttachmentPath.
  now rewrite replaceGlobal_literal.
Qed.

(** An absolute path without placeholder is returned as it is. *)
Lemma resolveAttachmentPath_absolute env path :
  Path.isAbsolute path = true ->
  Js.occurs placeholder path = false ->
  resolveAttachmentPath env path = path.
Proof.
  intros Habs Hocc. unfold resolveAttachmentPath.
  rewrite replaceGlobal_absent by assumption.
  assert (Hc : exists rest, path = String "/" rest).
  { destruct path as [|c rest]; [discriminate|].
    unfold Path.isAbsolute in Habs. cbn [String.prefix] in Habs.
    destruct (Ascii.ascii_dec "/" c) as [<-|]; [eauto|discriminate]. }
  destruct Hc as [rest ->]. reflexivity.
Qed.

(** ** [Promise.allSettled] does not depend on the order of settlement *)

Section AllSettledFacts.

Context {A : Type}.
Implicit Types (promises : list (Completion A)) (schedule : list nat).
Implicit Types (slots : list (option (PromiseSettledResult A))).

Lemma settle_length promises slots index :
  length (settle promises slots index) = length slots.
Proof.
  unfold settle. destruct (promises !! index ≫= settledResult); [|reflexivity].
  apply length_insert.
Qed.

Lemma settle_lookup promises slots index i :
  length slots = length promises ->
  settle promises slots index !! i
  = match promises !! i ≫= settledResult with
    | Some result => if decide (i = index) then Some (Some result) else slots !! i
    | None => slots !! i
    end.
Proof.
  intros Hlen. unfold settle.
  destruct (decide (i = index)) as [->|Hne].
  - destruct (promises !! index ≫= settledResult) as [result|] eqn:E; [|reflexivity].
    apply list_lookup_insert_eq.
    destruct (promises !! index) eqn:Ep; [|discriminate].
    apply lookup_lt_Some in Ep. lia.
  - destruct (promises !! index ≫= settledResult).
    + rewrite list_lookup_insert_ne by congruence.
      now destruct (promises !! i ≫= settledResult).
    + now destruct (promises !! i ≫= settledResult).
Qed.

(** After the settlements of [schedule], slot [i] holds the result of
    promise [i] if [i] was scheduled and the promise can settle, and is
    as before otherwise. *)
Lemma fold_settle_lookup promises schedule : forall slots i,
  length slots = length promises ->
  fold_left (settle promises) schedule slots !! i
  = match promises !! i ≫= settledResult with
    | Some result =>
        if decide (i ∈ schedule) then Some (Some result) else slots !! i
    | None => slots !! i
    end.
Proof.
  induction schedule as [|index rest IH]; intros slots i Hlen; simpl.
  - destruct (promises !! i ≫= settledResult); [|reflexivity].
    destruct (decide (i ∈ [])) as [Hin|]; [|reflexivity].
    now apply elem_of_nil in Hin.
  - rewrite IH by now rewrite settle_length.
    rewrite settle_lookup by assumption.
    destruct (promises !! i ≫= settledResult) as [result|]; [|reflexivity].
    repeat case_decide; try reflexivity; exfalso;
      rewrite elem_of_cons in *; tauto.
Qed.

Lemma filled_fmap_Some (results : list (PromiseSettledResult A)) :
  filled (Some <$> results) = Some results.
Proof.
  induction results as [|r rest IH]; [reflexivity|].
  rewrite fmap_cons. cbn [filled]. now rewrite IH.
Qed.

(** Once every promise has settled, the combined promise resolves with
    the results in the order of the promises, whatever the order in which
    they settled. *)
Lemma allSettled_complete promises schedule results :
  Forall2 (fun p r => settledResult p = Some r) promises results ->
  (forall i, i < length promises -> i ∈ schedule) ->
  allSettled promises schedule = Normal results.
Proof.
  intros Hres Hall. unfold allSettled, settle_all.
  assert (Hslots :
    fold_left (settle promises) schedule (replicate (length promises) None)
    = Some <$> results).
  { apply list_eq. intros i.
    rewrite fold_settle_lookup by apply length_replicate.
    rewrite list_lookup_fmap.
    destruct (promises !! i) as [p|] eqn:Ep; simpl.
    - destruct (Forall2_lookup_l _ _ _ _ _ Hres Ep) as (r & Er & Hr).
      rewrite Hr, Er. simpl.
      rewrite decide_True; [reflexivity|].
      apply Hall. now apply lookup_lt_Some in Ep.
    - apply lookup_ge_None in Ep.
      pose proof (Forall2_length _ _ _ Hres) as Hlen.
      rewrite (proj1 (lookup_replicate_None _ _ _)) by lia.
      rewrite (proj2 (lookup_ge_None results i)) by lia.
      reflexivity. }
  rewrite Hslots. now rewrite filled_fmap_Some.
Qed.

Lemma schedule_covers n schedule :
  schedule ≡ₚ seq 0 n -> forall i, i < n -> i ∈ schedule.
Proof.
  intros Hp i Hi. rewrite Hp. apply elem_of_seq. lia.
Qed.

End AllSettledFacts.

(** ** The mailer *)

Section MailerFacts.

Context {T : Type}.
Variable config : Config.t.
Variable env : Env.
Variable existsSync : string -> bool.
Variable sendMail : MailOptions.t -> T -> SendOutcome * T.

Local Abbreviation sendEmail' := (sendEmail config sendMail).
Local Abbreviation bulkTask' := (bulkTask config sendMail).
Local Abbreviation sendBulkEmails' := (sendBulkEmails config sendMail).
Local Abbreviation processAttachment' :=
  (processAttachment (T:=T) env existsSync).
Local Abbreviation processAttachments' :=
  (processAttachments (T:=T) env existsSync).
Local Abbreviation templateTask' :=
  (templateTask config env existsSync sendMail).
Local Abbreviation sendTemplatedEmails' :=
  (sendTemplatedEmails config env existsSync sendMail).

(** *** Promises of a batch *)

(** Mapping an [async] callback over an array never throws, and gives one
    promise per element, in the order of the elements. *)
Lemma Array_map_async {A B} (f : A -> M T B) (xs : list A) : forall w,
  exists promises w',
    Array_map (fun x => async (f x)) xs w = (Normal promises, w')
    /\ Forall2 (fun x p => exists wi, p = (f x wi).1) xs promises.
Proof.
  induction xs as [|x rest IH]; intros w.
  - exists [], w. split; [reflexivity|constructor].
  - cbn [Array_map]. unfold bind at 1. unfold async at 1.
    destruct (f x w) as [c w1] eqn:E.
    destruct (IH w1) as (ps & w' & Hrun & Hall).
    exists (c :: ps), w'. split.
    + unfold bind. now rewrite Hrun.
    + constructor; [|assumption]. exists w. now rewrite E.
Qed.

(** The shape shared by the two batch operations: one [async] call per
    element, [Promise.allSettled], then a map over the settled results.
    When no task stays pending, the batch returns once every task has
    settled, and what it returns does not depend on the order in which
    they did. *)
Lemma batch_run {A B R} (task : A -> M T B)
    (final : nat -> PromiseSettledResult B -> R) (xs : list A) (w : World T) :
  (forall x wi, (task x wi).1 <> Pending) ->
  exists settled w',
    (forall schedule,
       (forall i, i < length xs -> i ∈ schedule) ->
       (let! promises := Array_map (fun x => async (task x)) xs in
        let! results := await (allSettled promises schedule) in
        ret (imap final results)) w
       = (Normal (imap final settled), w'))
    /\ Forall2 (fun x s => exists wi, settledResult (task x wi).1 = Some s)
         xs settled.
Proof.
  intros Hsettles.
  destruct (Array_map_async task xs w) as (promises & w' & Hrun & Hall).
  assert (Hs : exists settled,
    Forall2 (fun p s => settledResult p = Some s) promises settled
    /\ Forall2 (fun x s => exists wi, settledResult (task x wi).1 = Some s)
         xs settled).
  { clear Hrun. induction Hall as [|x p xs' ps [wi Hp] _ IH].
    - exists []. split; constructor.
    - destruct IH as (settled & H1 & H2).
      destruct (settledResult p) as [s|] eqn:Es.
      + exists (s :: settled). split; constructor; try assumption.
        exists wi. now rewrite <- Hp.
      + exfalso. apply (Hsettles x wi). rewrite <- Hp. now destruct p. }
  destruct Hs as (settled & Hps & Hxs).
  exists settled, w'. split; [|exact Hxs].
  intros schedule Hcov.
  unfold bind at 1. rewrite Hrun. unfold bind, await, ret.
  rewrite (allSettled_complete promises schedule settled Hps); [reflexivity|].
  intros i Hi. apply Hcov. now rewrite (Forall2_length _ _ _ Hall).
Qed.

Lemma imap_fulfilled {A} (f : nat -> PromiseSettledResult A -> A)
    (values : list A) :
  (forall i v, f i (fulfilled v) = v) ->
  imap f (fulfilled <$> values) = values.
Proof.
  revert f. induction values as [|v vs IH]; intros f Hf; [reflexivity|].
  rewrite fmap_cons. cbn [imap]. rewrite Hf. f_equal.
  apply IH. intros i v'. apply Hf.
Qed.

(** *** [sendEmail] *)

Lemma sendEmail_run options w :
  sendEmail' options w
  = let (outcome, t') := sendMail (emailMailOptions config options) (transport w) in
    (Normal
       match outcome with
       | Accepted info =>
           {| SendResult.success := true;
              SendResult.messageId := Some (SentMessageInfo.messageId info);
              SendResult.error := None |}
       | Refused (ErrorObj message) =>
           {| SendResult.success := false;
              SendResult.messageId := None;
              SendResult.error := Some message |}
       | Refused (NonError _) =>
           {| SendResult.success := false;
              SendResult.messageId := None;
              SendResult.error := Some "unknown error" |}
       end,
     {| transport := t';
        log := log w ++ [SendMail (emailMailOptions config options)] |}).
Proof.
  unfold sendEmail, try_catch, bind, await_sendMail.
  destruct (sendMail _ _) as [[info|[message|v]] t']; reflexivity.
Qed.

(** C2: [sendEmail] always returns normally, never with an exception.
    When the transport accepts the message the result is
    [{success: true, messageId}]; when the transport fails with an
    [Error] the result is [{success: false, error}] with the error's own
    message; when it fails with any other value the error is the generic
    ['unknown error']. *)
Theorem sendEmail_never_throws (options : EmailOptions.t) (w : World T) :
  (sendEmail' options w).1
  = Normal
      match (sendMail (emailMailOptions config options) (transport w)).1 with
      | Accepted info =>
          {| SendResult.success := true;
             SendResult.messageId := Some (SentMessageInfo.messageId info);
             SendResult.error := None |}
      | Refused (ErrorObj message) =>
          {| SendResult.success := false;
             SendResult.messageId := None;
             SendResult.error := Some message |}
      | Refused (NonError _) =>
          {| SendResult.success := false;
             SendResult.messageId := None;
             SendResult.error := Some "unknown error" |}
      end.
Proof.
  rewrite sendEmail_run. now destruct (sendMail _ _) as [outcome t'].
Qed.

(** C9: for a list of addresses, the one message [sendEmail] hands to the
    transport has the addresses joined with [", "], in the order given
    and without removing duplicates; the body is its [text] field (and
    there is no [html] field) unless the [html] flag is true, in which
    case it is its [html] field (and there is no [text] field). *)
Theorem sendEmail_message (addresses : list string) (subject content : string)
    (html : option bool) (w : World T) :
  let options :=
    {| EmailOptions.to := Many addresses;
       EmailOptions.subject := subject;
       EmailOptions.content := content;
       EmailOptions.html := html |} in
  exists mailOptions,
    log (sendEmail' options w).2 = log w ++ [SendMail mailOptions]
    /\ MailOptions.to mailOptions = String.concat ", " addresses
    /\ MailOptions.subject mailOptions = subject
    /\ match html with
       | Some true =>
           MailOptions.html mailOptions = Some content
           /\ MailOptions.text mailOptions = None
       | Some false | None =>
           MailOptions.text mailOptions = Some content
           /\ MailOptions.html mailOptions = None
       end.
Proof.
  intros options. exists (emailMailOptions config options).
  rewrite sendEmail_run. destruct (sendMail _ _) as [outcome t'].
  repeat split; try reflexivity.
  destruct html as [[|]|]; split; reflexivity.
Qed.

(** *** [sendBulkEmails] *)

Lemma bulkTask_run email w :
  exists result,
    (sendEmail' email w).1 = Normal result
    /\ (bulkTask' email w).1
       = Normal {| BulkResult.success := SendResult.success result;
                   BulkResult.messageId := SendResult.messageId result;
                   BulkResult.error := SendResult.error result;
                   BulkResult.to := joinRecipients (EmailOptions.to email) |}.
Proof.
  unfold bulkTask, bind, async, await, ret.
  rewrite sendEmail_run. destruct (sendMail _ _) as [outcome t'].
  eexists. split; reflexivity.
Qed.

(** Every result of [sendBulkEmails] is the result of [sendEmail] on the
    input at the same index, with that input's recipient; neither the
    results nor the final world depend on the order of settlement. *)
Lemma sendBulkEmails_run emails w :
  exists results w',
    (forall schedule,
       (forall i, i < length emails -> i ∈ schedule) ->
       sendBulkEmails' emails schedule w = (Normal results, w'))
    /\ Forall2
         (fun email r =>
            exists wi result,
              (sendEmail' email wi).1 = Normal result
              /\ r = {| BulkResult.success := SendResult.success result;
                        BulkResult.messageId := SendResult.messageId result;
                        BulkResult.error := SendResult.error result;
                        BulkResult.to :=
                          joinRecipients (EmailOptions.to email) |})
         emails results.
Proof.
  destruct (batch_run bulkTask' (bulkResult emails) emails w)
    as (settled & w' & Hrun & Hall).
  { intros email wi. destruct (bulkTask_run email wi) as (r & _ & ->).
    discriminate. }
  exists (imap (bulkResult emails) settled), w'. split; [exact Hrun|].
  clear Hrun.
  assert (Hf : forall i v, bulkResult emails i (fulfilled v) = v)
    by reflexivity.
  revert Hf. generalize (bulkResult emails) as f.
  induction Hall as [|email s emails' ss [wi Hs] _ IH]; intros f Hf;
    [constructor|].
  cbn [imap]. constructor; [|apply IH; intros i v; apply Hf].
  destruct (bulkTask_run email wi) as (result & Hsend & Hb).
  rewrite Hb in Hs. injection Hs as <-. rewrite Hf. eauto.
Qed.

(** *** [processAttachments] *)

Lemma truthy_str_value (o : option string) :
  Js.truthy_str o = bool_decide (is_Some (Js.truthy_value o)).
Proof. destruct o as [[|c s]|]; reflexivity. Qed.

Lemma truthy_value_nonempty (o : option string) (s : string) :
  Js.truthy_value o = Some s <-> o = Some s /\ s <> "".
Proof.
  destruct o as [[|c s']|]; simpl; split.
  - discriminate.
  - intros [[= <-] H]. contradiction.
  - intros [= <-]. split; [reflexivity|discriminate].
  - intros [[= <-] _]. reflexivity.
  - discriminate.
  - intros [[=] _].
Qed.

Ltac run_attachment :=
  unfold processAttachment, bind, ret, throw, console_warn, emit, after, carried.

Ltac finish_attachment a :=
  destruct (Js.truthy_value (EmailAttachment.cid a));
  destruct (EmailAttachment.disposition a);
  eexists; repeat split.

Lemma processAttachment_path a p w :
  Js.truthy_value (EmailAttachment.path a) = Some p ->
  exists r,
    processAttachment' a w
    = (Normal r,
       if existsSync (resolveAttachmentPath env p) then w
       else after w (Warn (notFoundWarning (resolveAttachmentPath env p))))
    /\ carried a r
    /\ ProcessedAttachment.path r = Some (resolveAttachmentPath env p)
    /\ ProcessedAttachment.content r = None
    /\ ProcessedAttachment.raw r = None
    /\ ProcessedAttachment.encoding r = None.
Proof.
  intros Hp. run_attachment. rewrite Hp.
  destruct (existsSync _); cbn [negb]; finish_attachment a.
Qed.

Lemma processAttachment_content a c w :
  Js.truthy_value (EmailAttachment.path a) = None ->
  EmailAttachment.content a = Some c ->
  exists r,
    processAttachment' a w = (Normal r, w)
    /\ carried a r
    /\ ProcessedAttachment.path r = None
    /\ ProcessedAttachment.content r = Some c
    /\ ProcessedAttachment.raw r = None
    /\ ProcessedAttachment.encoding r
       = Js.truthy_value (EmailAttachment.encoding a).
Proof.
  intros Hp Hc. run_attachment. rewrite Hp, Hc.
  destruct (Js.truthy_value (EmailAttachment.encoding a)); finish_attachment a.
Qed.

Lemma processAttachment_stream a s w :
  Js.truthy_value (EmailAttachment.path a) = None ->
  EmailAttachment.content a = None ->
  EmailAttachment.stream a = Some s ->
  exists r,
    processAttachment' a w = (Normal r, w)
    /\ carried a r
    /\ ProcessedAttachment.path r = None
    /\ ProcessedAttachment.content r = None
    /\ ProcessedAttachment.raw r = Some s
    /\ ProcessedAttachment.encoding r = None.
Proof.
  intros Hp Hc Hs. run_attachment. rewrite Hp, Hc, Hs. finish_attachment a.
Qed.

Lemma processAttachment_missing a w :
  Js.truthy_value (EmailAttachment.path a) = None ->
  EmailAttachment.content a = None ->
  EmailAttachment.stream a = None ->
  processAttachment' a w = (Throw (ErrorObj (missingSourceMessage a)), w).
Proof.
  intros Hp Hc Hs. run_attachment. now rewrite Hp, Hc, Hs.
Qed.

(** The missing-source message contains the file name. *)
Lemma prefix_append (s t : string) : String.prefix s (s +:+ t) = true.
Proof.
  induction s as [|c s IH]; simpl; [now destruct t|].
  destruct (Ascii.ascii_dec c c); [exact IH|contradiction].
Qed.

Lemma occurs_append (pat pre s : string) :
  Js.occurs pat s = true -> Js.occurs pat (pre +:+ s) = true.
Proof.
  intros H. induction pre as [|c pre IH]; [exact H|].
  change (String c pre +:+ s) with (String c (pre +:+ s)).
  cbn [Js.occurs]. rewrite IH. apply orb_true_r.
Qed.

Lemma missingSourceMessage_names a :
  Js.occurs (EmailAttachment.filename a) (missingSourceMessage a) = true.
Proof.
  unfold missingSourceMessage. apply occurs_append.
  destruct (EmailAttachment.filename a +:+ _) eqn:E;
    cbn [Js.occurs]; rewrite <- E, prefix_append; reflexivity.
Qed.

Lemma processAttachment_carried a w r w' :
  processAttachment' a w = (Normal r, w') -> carried a r.
Proof.
  intros Hrun.
  destruct (Js.truthy_value (EmailAttachment.path a)) as [p|] eqn:Hp.
  { destruct (processAttachment_path a p w Hp) as (r0 & H0 & Hc & _).
    rewrite H0 in Hrun. now injection Hrun as <- _. }
  destruct (EmailAttachment.content a) as [c|] eqn:Hc.
  { destruct (processAttachment_content a c w Hp Hc) as (r0 & H0 & Hcar & _).
    rewrite H0 in Hrun. now injection Hrun as <- _. }
  destruct (EmailAttachment.stream a) as [s|] eqn:Hs.
  { destruct (processAttachment_stream a s w Hp Hc Hs) as (r0 & H0 & Hcar & _).
    rewrite H0 in Hrun. now injection Hrun as <- _. }
  rewrite (processAttachment_missing a w Hp Hc Hs) in Hrun. discriminate.
Qed.

(** C3 (amended): the source of an attachment is chosen in the order
    path, content, stream, where a path counts only if it is a non-empty
    string. With such a path the resolved attachment has the resolved path
    and neither content, encoding nor stream, whatever else was supplied.
    Without one (absent or empty) and with content defined, it has the
    content, and the encoding if one is given and non-empty. With neither
    and a stream, it has the stream. With none of the three, resolution
    throws an error whose message contains the file name. *)
Theorem processAttachment_precedence (a : EmailAttachment.t) (w : World T) :
  match Js.truthy_value (EmailAttachment.path a),
        EmailAttachment.content a, EmailAttachment.stream a with
  | Some p, _, _ =>
      exists r w',
        processAttachment' a w = (Normal r, w')
        /\ ProcessedAttachment.path r = Some (resolveAttachmentPath env p)
        /\ ProcessedAttachment.content r = None
        /\ ProcessedAttachment.encoding r = None
        /\ ProcessedAttachment.raw r = None
  | None, Some c, _ =>
      exists r w',
        processAttachment' a w = (Normal r, w')
        /\ ProcessedAttachment.content r = Some c
        /\ ProcessedAttachment.encoding r
           = Js.truthy_value (EmailAttachment.encoding a)
        /\ ProcessedAttachment.path r = None
        /\ ProcessedAttachment.raw r = None
  | None, None, Some s =>
      exists r w',
        processAttachment' a w = (Normal r, w')
        /\ ProcessedAttachment.raw r = Some s
        /\ ProcessedAttachment.path r = None
        /\ ProcessedAttachment.content r = None
  | None, None, None =>
      exists w',
        processAttachment' a w = (Throw (ErrorObj (missingSourceMessage a)), w')
        /\ Js.occurs (EmailAttachment.filename a) (missingSourceMessage a) = true
  end.
Proof.
  destruct (Js.truthy_value (EmailAttachment.path a)) as [p|] eqn:Hp.
  { destruct (processAttachment_path a p w Hp) as (r & H & _ & ? & ? & ? & ?).
    eauto 10. }
  destruct (EmailAttachment.content a) as [c|] eqn:Hc.
  { destruct (processAttachment_content a c w Hp Hc)
      as (r & H & _ & ? & ? & ? & ?).
    eauto 10. }
  destruct (EmailAttachment.stream a) as [s|] eqn:Hs.
  { destruct (processAttachment_stream a s w Hp Hc Hs)
      as (r & H & _ & ? & ? & ? & ?).
    eauto 10. }
  exists w. split.
  - now apply processAttachment_missing.
  - apply missingSourceMessage_names.
Qed.

(** C7 (amended): a resolved attachment has the [cid] of its
    specification when that is a non-empty string and no [cid] otherwise;
    its disposition is the one of the specification, and it has none when
    the specification has none: no default is filled in. *)
Theorem processAttachment_cid_disposition (a : EmailAttachment.t)
    (w w' : World T) (r : ProcessedAttachment.t) :
  processAttachment' a w = (Normal r, w') ->
  ProcessedAttachment.cid r = Js.truthy_value (EmailAttachment.cid a)
  /\ ProcessedAttachment.contentDisposition r = EmailAttachment.disposition a.
Proof.
  intros Hrun. apply processAttachment_carried in Hrun.
  destruct Hrun as (_ & _ & Hcid & Hdisp). now split.
Qed.

(** C10: a path that is the empty string is not a path source, the
    attachment is resolved as if it had no path; content that is the
    empty string is a content source; and resolution throws, with the
    missing-source error, exactly when the path is falsy, the content
    undefined and the stream falsy. *)
Theorem processAttachment_guards (a : EmailAttachment.t) (w : World T) :
  processAttachment' (EmailAttachment.set_path (Some "") a) w
  = processAttachment' (EmailAttachment.set_path None a) w
  /\ match Js.truthy_str (EmailAttachment.path a), EmailAttachment.content a with
     | false, Some c =>
         exists r,
           processAttachment' a w = (Normal r, w)
           /\ ProcessedAttachment.content r = Some c
     | _, _ => True
     end
  /\ ((exists reason w', processAttachment' a w = (Throw reason, w'))
      <-> Js.truthy_str (EmailAttachment.path a) = false
          /\ EmailAttachment.content a = None
          /\ Js.truthy_obj (EmailAttachment.stream a) = false)
  /\ (forall reason w',
        processAttachment' a w = (Throw reason, w') ->
        reason = ErrorObj (missingSourceMessage a)).
Proof.
  split; [reflexivity|].
  rewrite truthy_str_value.
  destruct (Js.truthy_value (EmailAttachment.path a)) as [p|] eqn:Hp;
    cbn [bool_decide decide_rel is_Some_dec].
  { destruct (processAttachment_path a p w Hp) as (r & H & _).
    split; [exact I|]. split; [split|].
    - intros (reason & w' & Hthrow). rewrite H in Hthrow. discriminate.
    - intros [[=] _].
    - intros reason w' Hthrow. rewrite H in Hthrow. discriminate. }
  destruct (EmailAttachment.content a) as [c|] eqn:Hc.
  { destruct (processAttachment_content a c w Hp Hc) as (r & H & _ & _ & ? & _).
    split; [eauto|]. split; [split|].
    - intros (reason & w' & Hthrow). rewrite H in Hthrow. discriminate.
    - intros (_ & [=] & _).
    - intros reason w' Hthrow. rewrite H in Hthrow. discriminate. }
  split; [exact I|].
  destruct (EmailAttachment.stream a) as [s|] eqn:Hs.
  { destruct (processAttachment_stream a s w Hp Hc Hs) as (r & H & _).
    split; [split|].
    - intros (reason & w' & Hthrow). rewrite H in Hthrow. discriminate.
    - intros (_ & _ & [=]).
    - intros reason w' Hthrow. rewrite H in Hthrow. discriminate. }
  pose proof (processAttachment_missing a w Hp Hc Hs) as H.
  split; [split|].
  - intros _. repeat split.
  - intros _. eauto.
  - intros reason w' Hthrow. rewrite H in Hthrow. now injection Hthrow as <- _.
Qed.

(** Resolving attachments never leaves a promise pending, does not touch
    the transport, and only adds warnings to the log. *)
Lemma quiet_here {A} (m : M T A) w c :
  m w = (c, w) -> c <> Pending -> quiet m w.
Proof.
  intros H Hc. exists c, w, []. repeat split; try assumption.
  cbn. now rewrite app_nil_r.
Qed.

Lemma processAttachment_quiet a w : quiet (processAttachment' a) w.
Proof.
  destruct (Js.truthy_value (EmailAttachment.path a)) as [p|] eqn:Hp.
  { destruct (processAttachment_path a p w Hp) as (r & H & _).
    destruct (existsSync _).
    - now apply (quiet_here _ _ _ H).
    - eexists _, _, [_]. split; [exact H|]. now repeat split. }
  destruct (EmailAttachment.content a) as [c|] eqn:Hc.
  { destruct (processAttachment_content a c w Hp Hc) as (r & H & _).
    now apply (quiet_here _ _ _ H). }
  destruct (EmailAttachment.stream a) as [s|] eqn:Hs.
  { destruct (processAttachment_stream a s w Hp Hc Hs) as (r & H & _).
    now apply (quiet_here _ _ _ H). }
  now apply (quiet_here _ _ _ (processAttachment_missing a w Hp Hc Hs)).
Qed.

Lemma processAttachments_quiet attachments : forall w,
  quiet (processAttachments' attachments) w.
Proof.
  unfold processAttachments.
  induction attachments as [|a rest IH]; intros w.
  - now apply (quiet_here _ _ (Normal [])).
  - destruct (processAttachment_quiet a w) as (c & w1 & ws & H & Hc & Ht & Hl).
    destruct c as [r| |]; [| |contradiction].
    + destruct (IH w1) as (c' & w2 & ws' & H' & Hc' & Ht' & Hl').
      exists (match c' with
              | Normal rs => Normal (r :: rs)
              | Throw reason => Throw reason
              | Pending => Pending
              end), w2, (ws ++ ws').
      split; [|split; [|split]].
      * cbn [Array_map]. unfold bind at 1. rewrite H.
        unfold bind, ret. rewrite H'. now destruct c'.
      * now destruct c'.
      * congruence.
      * rewrite Hl', Hl, fmap_app. apply eq_sym, app_assoc.
    + exists (Throw reason), w1, ws. split; [|now repeat split].
      cbn [Array_map]. unfold bind at 1. now rewrite H.
Qed.

(** With a source on every attachment, resolution succeeds and gives the
    resolved attachments in order. *)
Lemma processAttachments_sources attachments : forall w,
  Forall (fun a => hasSource a = true) attachments ->
  exists rs w',
    processAttachments' attachments w = (Normal rs, w')
    /\ Forall2 (fun a r => exists wi wi', processAttachment' a wi = (Normal r, wi'))
         attachments rs.
Proof.
  unfold processAttachments.
  induction attachments as [|a rest IH]; intros w Hsrc.
  - exists [], w. split; [reflexivity|constructor].
  - apply Forall_cons in Hsrc as [Ha Hrest].
    assert (Hr : exists r w1, processAttachment' a w = (Normal r, w1)).
    { unfold hasSource in Ha. rewrite truthy_str_value in Ha.
      destruct (Js.truthy_value (EmailAttachment.path a)) as [p|] eqn:Hp.
      { destruct (processAttachment_path a p w Hp) as (r & H & _). eauto. }
      destruct (EmailAttachment.content a) as [c|] eqn:Hc.
      { destruct (processAttachment_content a c w Hp Hc) as (r & H & _). eauto. }
      destruct (EmailAttachment.stream a) as [s|] eqn:Hs; [|discriminate].
      destruct (processAttachment_stream a s w Hp Hc Hs) as (r & H & _). eauto. }
    destruct Hr as (r & w1 & Hr).
    destruct (IH w1 Hrest) as (rs & w' & Hrs & Hall).
    exists (r :: rs), w'. split.
    + cbn [Array_map]. unfold bind at 1. rewrite Hr.
      unfold bind, ret. now rewrite Hrs.
    + constructor; eauto.
Qed.

(** *** [sendTemplatedEmails] *)

Lemma templateTask_no_recipient d t w :
  recipientOf d t = None ->
  templateTask' d t w = (Throw (ErrorObj (noRecipientMessage t)), w).
Proof. unfold recipientOf, templateTask. now intros ->. Qed.

Lemma content_empty t :
  Js.str_empty
    (if Js.truthy_str (EmailTemplate.html t)
     then default "" (EmailTemplate.html t)
     else if Js.truthy_str (EmailTemplate.text t)
          then default "" (EmailTemplate.text t)
          else "")
  = negb (hasContent t).
Proof.
  unfold hasContent.
  destruct (EmailTemplate.html t) as [[|? ?]|], (EmailTemplate.text t) as [[|? ?]|];
    reflexivity.
Qed.

Lemma templateTask_no_content d t w to :
  recipientOf d t = Some to ->
  hasContent t = false ->
  templateTask' d t w = (Throw (ErrorObj (noContentMessage t)), w).
Proof.
  unfold recipientOf, templateTask. intros -> Hc.
  now rewrite content_empty, Hc.
Qed.

Lemma templateTask_attachments d t w to :
  recipientOf d t = Some to ->
  hasContent t = true ->
  templateTask' d t w
  = match processAttachments' (EmailTemplate.attachments t) w with
    | (Normal processedAttachments, w1) =>
        let mailOptions :=
          templateMailOptions config t to processedAttachments in
        let (outcome, t') := sendMail mailOptions (transport w1) in
        (match outcome with
         | Accepted info =>
             Normal {| TemplatedResult.success := true;
                       TemplatedResult.messageId :=
                         Some (SentMessageInfo.messageId info);
                       TemplatedResult.error := None;
                       TemplatedResult.templateId := EmailTemplate.id t;
                       TemplatedResult.to := joinRecipients to |}
         | Refused reason => Throw reason
         end,
         {| transport := t'; log := log w1 ++ [SendMail mailOptions] |})
    | (Throw reason, w1) => (Throw reason, w1)
    | (Pending, w1) => (Pending, w1)
    end.
Proof.
  unfold recipientOf, templateTask. intros -> Hc.
  rewrite content_empty, Hc. cbn [negb]. unfold bind at 1.
  destruct (processAttachments' _ w) as [[rs| |] w1]; try reflexivity.
  unfold bind, await_sendMail, ret.
  destruct (sendMail _ _) as [[info|reason] t']; reflexivity.
Qed.

(** However a template's task ends, it settles; a fulfilled task sent the
    message to the template's recipient, and a template without recipient
    is rejected with the missing-recipient error. *)
Lemma templateTask_outcome d t w :
  match (templateTask' d t w).1 with
  | Normal v =>
      exists to,
        recipientOf d t = Some to
        /\ TemplatedResult.success v = true
        /\ TemplatedResult.templateId v = EmailTemplate.id t
        /\ TemplatedResult.to v = joinRecipients to
  | Throw reason =>
      recipientOf d t = None -> reason = ErrorObj (noRecipientMessage t)
  | Pending => False
  end.
Proof.
  destruct (recipientOf d t) as [to|] eqn:Hto.
  2:{ now rewrite templateTask_no_recipient. }
  destruct (hasContent t) eqn:Hc.
  2:{ rewrite (templateTask_no_content d t w to) by assumption. discriminate. }
  rewrite (templateTask_attachments d t w to) by assumption.
  destruct (processAttachments_quiet (EmailTemplate.attachments t) w)
    as (c & w1 & ws & -> & Hp & _).
  destruct c as [rs|reason|]; cbn; [|discriminate|contradiction].
  destruct (sendMail _ _) as [[info|reason] t']; cbn; [|discriminate].
  exists to. now repeat split.
Qed.

Lemma templateTask_settles d t w : (templateTask' d t w).1 <> Pending.
Proof.
  pose proof (templateTask_outcome d t w) as H.
  destruct ((templateTask' d t w).1); [discriminate|discriminate|contradiction].
Qed.

(** The [to] field of a failure record: the recipient of the template if
    it has one, and ['unknown'] otherwise. *)
Lemma templatedResult_rejected templates d i t reason :
  templates !! i = Some t ->
  let r := templatedResult templates d i (rejected reason) in
  TemplatedResult.success r = false
  /\ TemplatedResult.error r = Some (reasonMessage reason)
  /\ TemplatedResult.templateId r = Js.or_str (Some (EmailTemplate.id t)) "unknown"
  /\ TemplatedResult.to r
     = match recipientOf d t with
       | Some to => joinRecipients to
       | None => "unknown"
       end.
Proof.
  intros Ht. unfold templatedResult. rewrite Ht. cbn.
  repeat split.
  unfold recipientOf, truthy_recipients_value, or_recipients.
  destruct (EmailTemplate.to t) as [[[|? ?]|?]|], d as [[[|? ?]|?]|];
    reflexivity.
Qed.

(** Every result of [sendTemplatedEmails] is the record made of the
    settled task of the template at the same index; neither the results
    nor the final world depend on the order of settlement. *)
Lemma sendTemplatedEmails_run templates d w :
  exists results w',
    (forall schedule,
       (forall i, i < length templates -> i ∈ schedule) ->
       sendTemplatedEmails' templates d schedule w = (Normal results, w'))
    /\ length results = length templates
    /\ forall i t,
         templates !! i = Some t ->
         exists wi s,
           settledResult (templateTask' d t wi).1 = Some s
           /\ results !! i = Some (templatedResult templates d i s).
Proof.
  destruct (batch_run (templateTask' d) (templatedResult templates d) templates w)
    as (settled & w' & Hrun & Hall).
  { intros t wi. apply templateTask_settles. }
  exists (imap (templatedResult templates d) settled), w'.
  split; [exact Hrun|]. split.
  - rewrite length_imap. symmetry. exact (Forall2_length _ _ _ Hall).
  - intros i t Ht.
    destruct (Forall2_lookup_l _ _ _ _ _ Hall Ht) as (s & Hs & wi & Hwi).
    exists wi, s. split; [exact Hwi|].
    rewrite list_lookup_imap, Hs. reflexivity.
Qed.

(** C4 (amended): the recipient of a template is [template.to ||
    defaultTo]: the template's own [to] unless it is absent or the empty
    string, and the default otherwise. When this gives a recipient, the
    template's result, successful or not, has it in its [to] field (the
    addresses of a list joined). When it gives none, the template fails
    with the missing-recipient error and the [to] field of its result is
    ['unknown']. *)
Theorem templated_recipient (templates : list EmailTemplate.t)
    (defaultTo : option Recipients) (schedule : list nat) (w : World T)
    (i : nat) (t : EmailTemplate.t) :
  schedule ≡ₚ seq 0 (length templates) ->
  templates !! i = Some t ->
  exists results w' r,
    sendTemplatedEmails' templates defaultTo schedule w = (Normal results, w')
    /\ results !! i = Some r
    /\ match truthy_recipients_value
               (or_recipients (EmailTemplate.to t) defaultTo) with
       | Some to => TemplatedResult.to r = joinRecipients to
       | None =>
           TemplatedResult.success r = false
           /\ TemplatedResult.error r = Some (noRecipientMessage t)
           /\ TemplatedResult.to r = "unknown"
       end.
Proof.
  intros Hs Ht.
  destruct (sendTemplatedEmails_run templates defaultTo w)
    as (results & w' & Hrun & _ & Hall).
  destruct (Hall i t Ht) as (wi & s & Hset & Hr).
  exists results, w', (templatedResult templates defaultTo i s).
  split; [apply Hrun; now apply schedule_covers|]. split; [exact Hr|].
  pose proof (templateTask_outcome defaultTo t wi) as Hout.
  fold (recipientOf defaultTo t).
  destruct ((templateTask' defaultTo t wi).1) as [v|reason|];
    [| |contradiction]; injection Hset as <-.
  - destruct Hout as (to & -> & _ & _ & Hto). exact Hto.
  - destruct (templatedResult_rejected templates defaultTo i t reason Ht)
      as (Hfail & Herr & _ & Hto).
    destruct (recipientOf defaultTo t) as [to|]; [exact Hto|].
    specialize (Hout eq_refl). subst reason.
    split; [exact Hfail|]. split; [|exact Hto].
    rewrite Herr. reflexivity.
Qed.

(** The body of the message a template's task hands to the transport.
    For a template with a recipient: with non-empty html the message has
    the html as its [html] field, and the text as its [text] field
    exactly when the text is non-empty too; with no html (absent or
    empty) and non-empty text, the message has the text as its [text]
    field and no [html] field; with neither, the task is rejected with
    the empty-content error and the world is left as it was. *)
Lemma templateTask_body_selection (defaultTo : option Recipients)
    (t : EmailTemplate.t) (w : World T) (to : Recipients) :
  recipientOf defaultTo t = Some to ->
  match Js.truthy_value (EmailTemplate.html t),
        Js.truthy_value (EmailTemplate.text t) with
  | Some html, text =>
      forall processedAttachments w1,
        processAttachments' (EmailTemplate.attachments t) w
        = (Normal processedAttachments, w1) ->
        exists mailOptions,
          log (templateTask' defaultTo t w).2
          = log w1 ++ [SendMail mailOptions]
          /\ MailOptions.html mailOptions = Some html
          /\ MailOptions.text mailOptions = text
  | None, Some text =>
      forall processedAttachments w1,
        processAttachments' (EmailTemplate.attachments t) w
        = (Normal processedAttachments, w1) ->
        exists mailOptions,
          log (templateTask' defaultTo t w).2
          = log w1 ++ [SendMail mailOptions]
          /\ MailOptions.html mailOptions = None
          /\ MailOptions.text mailOptions = Some text
  | None, None =>
      templateTask' defaultTo t w = (Throw (ErrorObj (noContentMessage t)), w)
  end.
Proof.
  intros Hto.
  assert (Hsend : forall processedAttachments w1,
    processAttachments' (EmailTemplate.attachments t) w
    = (Normal processedAttachments, w1) ->
    hasContent t = true ->
    log (templateTask' defaultTo t w).2
    = log w1 ++ [SendMail (templateMailOptions config t to processedAttachments)]).
  { intros rs w1 Hatt Hc.
    rewrite (templateTask_attachments defaultTo t w to Hto Hc), Hatt.
    cbv zeta. now destruct (sendMail _ _) as [[info|reason] t']. }
  unfold hasContent in Hsend.
  destruct (Js.truthy_value (EmailTemplate.html t)) as [html|] eqn:Eh.
  - apply truthy_value_nonempty in Eh as [Eh Hne].
    intros rs w1 Hatt.
    eexists. split; [apply (Hsend rs w1 Hatt); rewrite Eh; now destruct html|].
    unfold templateMailOptions. cbn. rewrite Eh.
    destruct html as [|c html]; [contradiction|]. cbn.
    split; [reflexivity|].
    now destruct (EmailTemplate.text t) as [[|? ?]|].
  - destruct (Js.truthy_value (EmailTemplate.text t)) as [text|] eqn:Et.
    + apply truthy_value_nonempty in Et as [Et Hne].
      assert (Hh : Js.truthy_str (EmailTemplate.html t) = false).
      { rewrite truthy_str_value, Eh. reflexivity. }
      intros rs w1 Hatt.
      eexists. split.
      * apply (Hsend rs w1 Hatt). rewrite Hh, Et. now destruct text.
      * unfold templateMailOptions. cbn. now rewrite Hh.
    + apply (templateTask_no_content defaultTo t w to Hto).
      unfold hasContent. now rewrite !truthy_str_value, Eh, Et.
Qed.

(** C8: when the file of a path attachment does not exist, resolution
    logs the warning and nothing else, and returns the resolved attachment
    with the resolved path; and a template with a recipient and content
    whose attachments all have a source still hands its message to the
    transport, with the resolved attachment and its path in it. *)
Theorem missing_file_is_advisory (a : EmailAttachment.t) (p : string)
    (w : World T) :
  Js.truthy_value (EmailAttachment.path a) = Some p ->
  existsSync (resolveAttachmentPath env p) = false ->
  (exists r,
     processAttachment' a w
     = (Normal r, after w (Warn (notFoundWarning (resolveAttachmentPath env p))))
     /\ ProcessedAttachment.path r = Some (resolveAttachmentPath env p))
  /\ forall defaultTo t to,
       recipientOf defaultTo t = Some to ->
       hasContent t = true ->
       a ∈ EmailTemplate.attachments t ->
       Forall (fun a' => hasSource a' = true) (EmailTemplate.attachments t) ->
       exists mailOptions rs r,
         SendMail mailOptions ∈ log (templateTask' defaultTo t w).2
         /\ MailOptions.attachments mailOptions = Some rs
         /\ r ∈ rs
         /\ ProcessedAttachment.path r = Some (resolveAttachmentPath env p).
Proof.
  intros Hp Hmissing. split.
  - destruct (processAttachment_path a p w Hp) as (r & Hrun & _ & Hpath & _).
    rewrite Hmissing in Hrun. eauto.
  - intros defaultTo t to Hto Hc Hin Hsrc.
    destruct (processAttachments_sources _ w Hsrc) as (rs & w1 & Hrun & Hall).
    apply list_elem_of_lookup in Hin as [i Hi].
    destruct (Forall2_lookup_l _ _ _ _ _ Hall Hi) as (r & Hr & wi & wi' & Hri).
    destruct (processAttachment_path a p wi Hp) as (r' & Hrun' & _ & Hpath & _).
    rewrite Hrun' in Hri. injection Hri as -> _.
    exists (templateMailOptions config t to rs), rs, r.
    split; [|split; [reflexivity|split; [|exact Hpath]]].
    + rewrite (templateTask_attachments defaultTo t w to Hto Hc), Hrun.
      cbv zeta. destruct (sendMail _ _) as [[info|reason] t']; cbn;
        apply elem_of_app; right; apply list_elem_of_singleton; reflexivity.
    + apply list_elem_of_lookup. eauto.
Qed.

End MailerFacts.

(** * The statements on concrete inputs *)

Lemma swapped_schedule : [1; 0] ≡ₚ seq 0 2.
Proof. apply perm_swap. Defined.

(** At an empty template id, the failure record does not carry the id of
    its template. *)
Lemma templateId_of_anonymous_failure :
  (sendTemplatedEmails demoConfig demoEnv demoExists acceptAll
     [anonymousTemplate] None [0] world0).1
  = Normal [ {| TemplatedResult.success := false;
                TemplatedResult.messageId := None;
                TemplatedResult.error :=
                  Some "Template  has no recipient specified";
                TemplatedResult.templateId := "unknown";
                TemplatedResult.to := "unknown" |} ]
  /\ EmailTemplate.id anonymousTemplate = ""
  /\ "unknown" <> EmailTemplate.id anonymousTemplate.
Proof. split; [reflexivity|]. split; [reflexivity|discriminate]. Qed.

(** A path that is set, to the empty string, next to content: the
    resolved attachment has the content and no path. And were "set" to
    mean non-empty, an attachment whose only source is the empty string
    as content has no source set, yet its resolution does not fail. *)
Lemma empty_path_is_no_source :
  (EmailAttachment.path (contentAttachment "x" (Some "") "data") = Some ""
   /\ exists r,
        processAttachment demoEnv demoExists
          (contentAttachment "x" (Some "") "data") world0
        = (Normal r, world0)
        /\ ProcessedAttachment.path r = None
        /\ ProcessedAttachment.content r = Some (Str "data"))
  /\ (EmailAttachment.path emptyContentAttachment = None
      /\ EmailAttachment.content emptyContentAttachment = Some (Str "")
      /\ EmailAttachment.stream emptyContentAttachment = None
      /\ exists r,
           processAttachment demoEnv demoExists emptyContentAttachment world0
           = (Normal r, world0)
           /\ ProcessedAttachment.content r = Some (Str "")).
Proof.
  split.
  - split; [reflexivity|]. eexists. repeat split.
  - repeat split. eexists. repeat split.
Qed.

Lemma templated_recipient_witness :
  [1; 0] ≡ₚ seq 0 (length twoTemplates)
  /\ twoTemplates !! 1 = Some bothBodiesTemplate
  /\ exists results w' r,
       sendTemplatedEmails demoConfig demoEnv demoExists refuseBad
         twoTemplates opsDefault [1; 0] world0
       = (Normal results, w')
       /\ results !! 1 = Some r
       /\ TemplatedResult.to r = "ops@example.com".
Proof.
  split; [exact swapped_schedule|]. split; [reflexivity|].
  exact (templated_recipient demoConfig demoEnv demoExists refuseBad
           twoTemplates opsDefault [1; 0] world0 1 bothBodiesTemplate
           swapped_schedule eq_refl).
Defined.

(** With [to] the empty string, [template.to ?? defaultTo] is the empty
    string, but the message goes to the default recipient. *)
Lemma empty_to_falls_back_to_default :
  nullish_recipients (EmailTemplate.to emptyToTemplate) opsDefault
  = Some (One "")
  /\ or_recipients (EmailTemplate.to emptyToTemplate) opsDefault = opsDefault
  /\ (sendTemplatedEmails demoConfig demoEnv demoExists acceptAll
        [emptyToTemplate] opsDefault [0] world0).1
     = Normal [ {| TemplatedResult.success := true;
                   TemplatedResult.messageId := Some "<subject of t>";
                   TemplatedResult.error := None;
                   TemplatedResult.templateId := "t";
                   TemplatedResult.to := "ops@example.com" |} ].
Proof. repeat split. Qed.

(** C6: with [ASSETS_DIR] set to [/srv/$$mail], the placeholder is not
    replaced by the setting: [String.prototype.replace] reads [$$] in its
    replacement string as one dollar sign, so the resolved path is
    [/srv/$mail/logo.png], whereas replacing the token by the setting
    gives [/srv/$$mail/logo.png]. *)
Theorem resolveAttachmentPath_dollar_pattern :
  resolveAttachmentPath {| ASSETS_DIR := Some "/srv/$$mail"; cwd := "/work" |}
    "{{assetsDir}}/logo.png"
  = "/srv/$mail/logo.png"
  /\ Js.replace_literal placeholder "/srv/$$mail" 0 "{{assetsDir}}/logo.png"
     = "/srv/$$mail/logo.png".
Proof. split; reflexivity. Qed.

Lemma processAttachment_cid_disposition_witness :
  processAttachment demoEnv demoExists
    (pathAttachment "logo.png" "{{assetsDir}}/logo.png") world0
  = (Normal {| ProcessedAttachment.filename := "logo.png";
               ProcessedAttachment.contentType := "image/png";
               ProcessedAttachment.cid := Some "logoCid";
               ProcessedAttachment.contentDisposition := Some inline;
               ProcessedAttachment.path := Some "/tmp/assets/logo.png";
               ProcessedAttachment.content := None;
               ProcessedAttachment.raw := None;
               ProcessedAttachment.encoding := None |}, world0)
  /\ Some "logoCid" = Js.truthy_value (Some "logoCid")
  /\ Some inline = Some inline.
Proof.
  split; [reflexivity|].
  exact (processAttachment_cid_disposition demoEnv demoExists
           (pathAttachment "logo.png" "{{assetsDir}}/logo.png")
           world0 world0 _ eq_refl).
Defined.

(** An attachment without disposition and with an empty [cid]: the
    resolved attachment has no disposition, not the default
    [attachment], and no [cid]. *)
Lemma no_default_disposition :
  EmailAttachment.disposition (contentAttachment "x" None "data") = None
  /\ EmailAttachment.cid (contentAttachment "x" None "data") = Some ""
  /\ exists r,
       processAttachment demoEnv demoExists
         (contentAttachment "x" None "data") world0
       = (Normal r, world0)
       /\ ProcessedAttachment.contentDisposition r = None
       /\ ProcessedAttachment.contentDisposition r <> Some attachment
       /\ ProcessedAttachment.cid r = None.
Proof.
  split; [reflexivity|]. split; [reflexivity|].
  eexists. repeat split. discriminate.
Qed.

Lemma missing_file_is_advisory_witness :
  Js.truthy_value
    (EmailAttachment.path (pathAttachment "logo.png" "{{assetsDir}}/nologo.png"))
  = Some "{{assetsDir}}/nologo.png"
  /\ demoExists (resolveAttachmentPath demoEnv "{{assetsDir}}/nologo.png") = false
  /\ exists r,
       processAttachment demoEnv demoExists
         (pathAttachment "logo.png" "{{assetsDir}}/nologo.png") world0
       = (Normal r,
          after world0
            (Warn (notFoundWarning
                     (resolveAttachmentPath demoEnv "{{assetsDir}}/nologo.png"))))
       /\ ProcessedAttachment.path r
          = Some (resolveAttachmentPath demoEnv "{{assetsDir}}/nologo.png").
Proof.
  split; [reflexivity|]. split; [reflexivity|].
  exact (proj1 (missing_file_is_advisory demoConfig demoEnv demoExists acceptAll
                  (pathAttachment "logo.png" "{{assetsDir}}/nologo.png")
                  "{{assetsDir}}/nologo.png" world0 eq_refl eq_refl)).
Defined.

(** * Scenarios of the specification *)

(** P3: the placeholder, and an absolute path without one. *)
Example resolve_placeholder :
  resolveAttachmentPath demoEnv "{{assetsDir}}/logo.png" = "/tmp/assets/logo.png"
  /\ resolveAttachmentPath demoEnv "/tmp/assets/logo.png" = "/tmp/assets/logo.png".
Proof. split; reflexivity. Qed.

(** The default directory is relative, so the result is resolved against
    the working directory. *)
Example resolve_default :
  resolveAttachmentPath {| ASSETS_DIR := None; cwd := "/work/app" |}
    "{{assetsDir}}/a/../logo.png"
  = "/work/app/src/logo.png".
Proof. reflexivity. Qed.

Example resolve_parent :
  resolveAttachmentPath {| ASSETS_DIR := Some ""; cwd := "/work/app" |}
    "../x//y/"
  = "/work/x/y".
Proof. reflexivity. Qed.

(** A plain file name is left to the transport. *)
Example resolve_plain_name :
  resolveAttachmentPath demoEnv "logo.png" = "logo.png".
Proof. reflexivity. Qed.

(** [sendEmail({to: ["a@x.com", "b@x.com"], subject: "S", content: "C",
    html: false})] *)
Example sendEmail_scenario :
  log (sendEmail demoConfig acceptAll
         (plainEmail (Many ["a@x.com"; "b@x.com"])) world0).2
  = [SendMail
       {| MailOptions.from :=
            {| MailOptions.name := "mailer";
               MailOptions.address := "sender@example.com" |};
          MailOptions.to := "a@x.com, b@x.com";
          MailOptions.subject := "S";
          MailOptions.text := Some "C";
          MailOptions.html := None;
          MailOptions.attachments := None |}].
Proof. reflexivity. Qed.

Example join_keeps_duplicates :
  joinRecipients (Many ["a@x.com"; "a@x.com"; "b@x.com"])
  = "a@x.com, a@x.com, b@x.com".
Proof. reflexivity. Qed.

(** P2: one refused message among the others, settling last to first. *)
Example bulk_isolation :
  (sendBulkEmails demoConfig refuseBad
     [plainEmail (One "a@x.com"); plainEmail (One "bad@x.com");
      plainEmail (Many ["c@x.com"; "d@x.com"])]
     [2; 1; 0] world0).1
  = Normal
      [ {| BulkResult.success := true;
           BulkResult.messageId := Some "<S>";
           BulkResult.error := None;
           BulkResult.to := "a@x.com" |};
        {| BulkResult.success := false;
           BulkResult.messageId := None;
           BulkResult.error := Some "550 mailbox unavailable";
           BulkResult.to := "bad@x.com" |};
        {| BulkResult.success := true;
           BulkResult.messageId := Some "<S>";
           BulkResult.error := None;
           BulkResult.to := "c@x.com, d@x.com" |} ].
Proof. reflexivity. Qed.

(** As long as a task has not settled, the batch has not returned. *)
Example bulk_pending :
  (sendBulkEmails demoConfig refuseBad twoEmails [1] world0).1 = Pending.
Proof. reflexivity. Qed.

(** P6, and the scenario of an attachment whose file is missing. *)
Example templated_scenario :
  sendTemplatedEmails demoConfig demoEnv demoExists acceptAll
    twoTemplates opsDefault [1; 0] world0
  = (Normal
       [ {| TemplatedResult.success := false;
            TemplatedResult.messageId := None;
            TemplatedResult.error :=
              Some "Template  has no content (html or text)";
            TemplatedResult.templateId := "unknown";
            TemplatedResult.to := "ops@example.com" |};
         {| TemplatedResult.success := true;
            TemplatedResult.messageId := Some "<subject of t2>";
            TemplatedResult.error := None;
            TemplatedResult.templateId := "t2";
            TemplatedResult.to := "ops@example.com" |} ],
     {| transport := 1;
        log :=
          [Warn "Warning: Attachment file not found: /tmp/assets/nologo.png";
           SendMail
             {| MailOptions.from :=
                  {| MailOptions.name := "mailer";
                     MailOptions.address := "sender@example.com" |};
                MailOptions.to := "ops@example.com";
                MailOptions.subject := "subject of t2";
                MailOptions.text := Some "plain";
                MailOptions.html := Some "<p>h</p>";
                MailOptions.attachments := Some [resolvedNoLogo] |}] |}).
Proof. reflexivity. Qed.

(** * Further properties of the code *)

(** ** [resolveAttachmentPath] *)

Lemma resolve_not_relative cwd p :
  Js.startsWith (Path.resolve cwd p) "./" = false
  /\ Js.startsWith (Path.resolve cwd p) "../" = false.
Proof.
  unfold Path.resolve. cbv zeta.
  generalize (Js.join "/" (Path.normalize (Path.segments
    (if Path.isAbsolute p then p
     else if Js.str_empty p then cwd else cwd +:+ "/" +:+ p)))).
  intros rest. split; reflexivity.
Qed.

Lemma replace_literal_absent pat replacement : forall s,
  Js.occurs pat s = false -> Js.replace_literal pat replacement 0 s = s.
Proof.
  induction s as [|c rest IH]; intros H; [reflexivity|].
  apply occurs_cons in H as [Hp Hrest].
  cbn [Js.replace_literal]. rewrite Hp. f_equal. apply IH, Hrest.
Qed.

(** Skipping [k] characters is dropping them. *)
Lemma replace_literal_skip pat replacement : forall s k,
  Js.replace_literal pat replacement k s
  = Js.replace_literal pat replacement 0 (Js.drop k s).
Proof.
  induction s as [|c rest IH]; intros [|k]; try reflexivity.
  cbn [Js.replace_literal Js.drop]. apply IH.
Qed.

Lemma drop_append (s t : string) : Js.drop (String.length s) (s +:+ t) = t.
Proof. induction s as [|c s IH]; [reflexivity|exact IH]. Qed.

(** A match at the start of the string: the replacement, then the rest
    of the string with its own matches replaced. *)
Lemma replace_literal_match (c : ascii) (pat' replacement rest : string) :
  Js.replace_literal (String c pat') replacement 0 (String c pat' +:+ rest)
  = replacement +:+ Js.replace_literal (String c pat') replacement 0 rest.
Proof.
  change (String c pat' +:+ rest) with (String c (pat' +:+ rest)).
  cbn [Js.replace_literal].
  change (String c (pat' +:+ rest)) with (String c pat' +:+ rest).
  rewrite prefix_append. f_equal.
  rewrite replace_literal_skip.
  replace (String.length (String c pat') - 1) with (String.length pat')
    by (cbn [String.length]; lia).
  now rewrite drop_append.
Qed.

Lemma replace_placeholder_prefix (replacement rest : string) :
  Js.replace_literal placeholder replacement 0 (placeholder +:+ rest)
  = replacement +:+ Js.replace_literal placeholder replacement 0 rest.
Proof. exact (replace_literal_match _ _ _ _). Qed.

Lemma absolute_not_relative (s t : string) :
  Path.isAbsolute s = true ->
  Js.startsWith (s +:+ t) "./" || Js.startsWith (s +:+ t) "../" = false.
Proof.
  intros Habs. destruct s as [|c s]; [discriminate|].
  unfold Path.isAbsolute in Habs. cbn [String.prefix] in Habs.
  destruct (Ascii.ascii_dec "/" c) as [<-|]; [reflexivity|discriminate].
Qed.

(** X1: whatever the path and the environment, the resolved path never
    starts with [./] or [../]: a path that does after the substitution is
    made absolute, and every other path is returned as substituted. *)
Theorem resolveAttachmentPath_never_relative (env : Env) (path : string) :
  Js.startsWith (resolveAttachmentPath env path) "./" = false
  /\ Js.startsWith (resolveAttachmentPath env path) "../" = false.
Proof.
  unfold resolveAttachmentPath. cbv zeta.
  set (s := Js.replaceGlobal placeholder (assetsDir env) path).
  destruct (Js.startsWith s "./" || Js.startsWith s "../") eqn:E.
  - apply resolve_not_relative.
  - now apply orb_false_iff in E.
Qed.

(** X2: resolving is stable: when the resolved path contains no
    placeholder, resolving it again returns it unchanged. *)
Theorem resolveAttachmentPath_stable (env : Env) (path : string) :
  Js.occurs placeholder (resolveAttachmentPath env path) = false ->
  resolveAttachmentPath env (resolveAttachmentPath env path)
  = resolveAttachmentPath env path.
Proof.
  intros Hocc.
  assert (Hrel :
    Js.startsWith (resolveAttachmentPath env path) "./"
    || Js.startsWith (resolveAttachmentPath env path) "../" = false).
  { unfold resolveAttachmentPath. cbv zeta.
    set (s := Js.replaceGlobal placeholder (assetsDir env) path).
    destruct (Js.startsWith s "./" || Js.startsWith s "../") eqn:E; [|exact E].
    destruct (resolve_not_relative (cwd env) s) as [-> ->].
    reflexivity. }
  generalize dependent (resolveAttachmentPath env path). intros r Hocc Hrel.
  unfold resolveAttachmentPath.
  rewrite replaceGlobal_absent by assumption. cbv zeta. now rewrite Hrel.
Qed.

(** X3: with an absolute assets directory that contains no dollar sign, a
    path made of the placeholder and a rest without placeholder resolves
    to the directory followed by that rest. *)
Theorem resolveAttachmentPath_in_assetsDir (env : Env) (rest : string) :
  Path.isAbsolute (assetsDir env) = true ->
  Js.has_char "$" (assetsDir env) = false ->
  Js.occurs placeholder rest = false ->
  resolveAttachmentPath env (placeholder +:+ rest) = assetsDir env +:+ rest.
Proof.
  intros Habs Hd Hocc. unfold resolveAttachmentPath.
  rewrite replaceGlobal_literal by assumption.
  rewrite replace_placeholder_prefix, replace_literal_absent by assumption.
  cbv zeta. now rewrite absolute_not_relative.
Qed.

(** X4: with [ASSETS_DIR] unset, or set to the empty string, the
    placeholder stands for [./src], a relative directory: a path made of
    the placeholder and a rest without placeholder resolves to
    [./src] and that rest, taken from the working directory. *)
Theorem resolveAttachmentPath_default_dir (env : Env) (rest : string) :
  Js.truthy_str (ASSETS_DIR env) = false ->
  Js.occurs placeholder rest = false ->
  resolveAttachmentPath env (placeholder +:+ rest)
  = Path.resolve (cwd env) ("./src" +:+ rest).
Proof.
  intros Hunset Hocc.
  assert (Hdir : assetsDir env = "./src").
  { unfold assetsDir. now destruct (ASSETS_DIR env) as [[|? ?]|]. }
  unfold resolveAttachmentPath. rewrite Hdir.
  rewrite replaceGlobal_literal by reflexivity.
  rewrite replace_placeholder_prefix, replace_literal_absent by assumption.
  reflexivity.
Qed.

(** ** The batch operations and the transport *)

Section MailerMore.

Context {T : Type}.
Variable config : Config.t.
Variable env : Env.
Variable existsSync : string -> bool.
Variable sendMail : MailOptions.t -> T -> SendOutcome * T.

Local Abbreviation sendEmail' := (sendEmail config sendMail).
Local Abbreviation bulkTask' := (bulkTask config sendMail).
Local Abbreviation sendBulkEmails' := (sendBulkEmails config sendMail).
Local Abbreviation processAttachment' :=
  (processAttachment (T:=T) env existsSync).
Local Abbreviation processAttachments' :=
  (processAttachments (T:=T) env existsSync).
Local Abbreviation templateTask' :=
  (templateTask config env existsSync sendMail).
Local Abbreviation sendTemplatedEmails' :=
  (sendTemplatedEmails config env existsSync sendMail).
Local Abbreviation messageOf := (emailMailOptions config).

Lemma bind_ret_world {A B} (m : M T A) (k : A -> B) (w : World T) :
  (bind m (fun y => ret (k y)) w).2 = (m w).2.
Proof. unfold bind, ret. now destruct (m w) as [[y|reason|] w']. Qed.

Lemma bind_ret_result {A B} (m : M T A) (k : A -> B) (w : World T) :
  (bind m (fun y => ret (k y)) w).1
  = match (m w).1 with
    | Normal y => Normal (k y)
    | Throw reason => Throw reason
    | Pending => Pending
    end.
Proof. unfold bind, ret. now destruct (m w) as [[y|reason|] w']. Qed.

(** *** [sendBulkEmails] *)

Lemma bulkTask_explicit email w :
  bulkTask' email w
  = let (o, t1) := sendMail (messageOf email) (transport w) in
    (Normal (bulkRecord email o),
     {| transport := t1; log := log w ++ [SendMail (messageOf email)] |}).
Proof.
  unfold bulkTask, bind, async, await, ret.
  rewrite (sendEmail_run config sendMail).
  destruct (sendMail _ _) as [[info|[message|v]] t1]; reflexivity.
Qed.

Lemma answers_length (messages : list MailOptions.t) : forall t : T,
  length (answers sendMail messages t).1 = length messages.
Proof.
  induction messages as [|m rest IH]; intros t; [reflexivity|].
  cbn [answers]. destruct (sendMail m t) as [o t1].
  specialize (IH t1). destruct (answers sendMail rest t1) as [os t2].
  cbn in *. now rewrite IH.
Qed.

(** The promises of a batch: one per email, each fulfilled with the
    record of the transport's answer to its message. *)
Lemma bulk_promises emails : forall w,
  Array_map (fun email => async (bulkTask' email)) emails w
  = let (os, t') := answers sendMail (messageOf <$> emails) (transport w) in
    (Normal (Normal <$> zip_with bulkRecord emails os),
     {| transport := t';
        log := log w ++ (SendMail <$> (messageOf <$> emails)) |}).
Proof.
  induction emails as [|email rest IH]; intros w.
  - cbn. rewrite app_nil_r. now destruct w.
  - cbn [Array_map]. unfold bind at 1. unfold async at 1.
    rewrite bulkTask_explicit. rewrite !fmap_cons. cbn [answers].
    destruct (sendMail _ _) as [o t1]. unfold bind at 1. rewrite IH.
    cbn [transport log].
    destruct (answers sendMail _ t1) as [os t2].
    unfold ret. cbn [zip_with]. rewrite fmap_cons.
    now rewrite <- app_assoc.
Qed.

(** What [sendBulkEmails] returns, and the world it leaves. *)
Lemma sendBulkEmails_explicit emails schedule w :
  (forall i, i < length emails -> i ∈ schedule) ->
  sendBulkEmails' emails schedule w
  = let (os, t') := answers sendMail (messageOf <$> emails) (transport w) in
    (Normal (zip_with bulkRecord emails os),
     {| transport := t';
        log := log w ++ (SendMail <$> (messageOf <$> emails)) |}).
Proof.
  intros Hcov. unfold sendBulkEmails. unfold bind at 1. rewrite bulk_promises.
  destruct (answers sendMail _ _) as [os t'].
  unfold bind, await, ret.
  rewrite (allSettled_complete _ schedule
             (fulfilled <$> zip_with bulkRecord emails os)).
  - now rewrite imap_fulfilled.
  - apply Forall2_fmap, Forall_Forall2_diag, Forall_forall. reflexivity.
  - intros i Hi. apply Hcov.
    rewrite length_fmap, length_zip_with in Hi. lia.
Qed.

(** X5: [sendBulkEmails] calls the transport exactly once per input, in
    input order, with the message [sendEmail] builds for that input,
    whatever the transport answers and in whatever order the tasks
    settle; the state of the transport is the one these calls leave. An
    empty batch makes no call. *)
Theorem sendBulkEmails_calls (emails : list EmailOptions.t)
    (schedule : list nat) (w : World T) :
  log (sendBulkEmails' emails schedule w).2
  = log w ++ (SendMail <$> (emailMailOptions config <$> emails))
  /\ transport (sendBulkEmails' emails schedule w).2
     = (answers sendMail (emailMailOptions config <$> emails) (transport w)).2.
Proof.
  unfold sendBulkEmails. unfold bind at 1 3. rewrite bulk_promises.
  destruct (answers sendMail _ _) as [os t'].
  unfold bind, await, ret.
  destruct (allSettled _ schedule); split; reflexivity.
Qed.

(** X6: the i-th result of [sendBulkEmails] is decided by the answer of
    the transport to the i-th message alone: success with the message id
    when it accepted, failure with the error's message (or
    ['unknown error']) when it refused, and the input's recipient in both
    cases. A refusal changes no other result. *)
Theorem sendBulkEmails_result (emails : list EmailOptions.t)
    (schedule : list nat) (w : World T) :
  schedule ≡ₚ seq 0 (length emails) ->
  exists results,
    (sendBulkEmails' emails schedule w).1 = Normal results
    /\ forall i email o,
         emails !! i = Some email ->
         (answers sendMail (emailMailOptions config <$> emails) (transport w)).1
           !! i = Some o ->
         results !! i = Some (bulkRecord email o).
Proof.
  intros Hs.
  rewrite sendBulkEmails_explicit
    by (intros i Hi; rewrite Hs; apply elem_of_seq; lia).
  destruct (answers sendMail _ _) as [os t'].
  eexists. split; [reflexivity|].
  intros i email o He Ho. cbn in Ho.
  rewrite lookup_zip_with, He, Ho. reflexivity.
Qed.

(** *** [processAttachments] *)

Lemma processAttachment_sourced a w :
  hasSource a = true ->
  exists r,
    processAttachment' a w
    = (Normal r,
       match Js.truthy_value (EmailAttachment.path a) with
       | Some p =>
           if existsSync (resolveAttachmentPath env p) then w
           else after w (Warn (notFoundWarning (resolveAttachmentPath env p)))
       | None => w
       end)
    /\ carried a r.
Proof.
  intros Ha. unfold hasSource in Ha.
  rewrite (truthy_str_value (EmailAttachment.path a)) in Ha.
  destruct (Js.truthy_value (EmailAttachment.path a)) as [p|] eqn:Hp.
  { destruct (processAttachment_path env existsSync a p w Hp) as (r & H & ? & _).
    eauto. }
  destruct (EmailAttachment.content a) as [c|] eqn:Hc.
  { destruct (processAttachment_content env existsSync a c w Hp Hc)
      as (r & H & ? & _).
    eauto. }
  destruct (EmailAttachment.stream a) as [s|] eqn:Hs; [|discriminate].
  destruct (processAttachment_stream env existsSync a s w Hp Hc Hs)
    as (r & H & ? & _).
  eauto.
Qed.

Lemma processAttachment_sourceless a w :
  hasSource a = false ->
  processAttachment' a w = (Throw (ErrorObj (missingSourceMessage a)), w).
Proof.
  intros Ha. unfold hasSource in Ha.
  rewrite (truthy_str_value (EmailAttachment.path a)) in Ha.
  apply processAttachment_missing.
  - destruct (Js.truthy_value (EmailAttachment.path a)); [discriminate|reflexivity].
  - destruct (Js.truthy_value (EmailAttachment.path a)); [discriminate|].
    destruct (EmailAttachment.content a); [discriminate|reflexivity].
  - destruct (Js.truthy_value (EmailAttachment.path a)); [discriminate|].
    destruct (EmailAttachment.content a); [discriminate|].
    destruct (EmailAttachment.stream a); [discriminate|reflexivity].
Qed.

(** X8: a resolved attachment has exactly one of the three source
    fields [path], [content] and [raw], and an [encoding] only next to
    [content]. *)
Theorem processAttachment_one_source (a : EmailAttachment.t) (w w' : World T)
    (r : ProcessedAttachment.t) :
  processAttachment' a w = (Normal r, w') ->
  Nat.b2n (Js.defined (ProcessedAttachment.path r))
  + Nat.b2n (Js.defined (ProcessedAttachment.content r))
  + Nat.b2n (Js.defined (ProcessedAttachment.raw r)) = 1
  /\ (Js.defined (ProcessedAttachment.encoding r) = true ->
      Js.defined (ProcessedAttachment.content r) = true).
Proof.
  intros Hrun.
  destruct (Js.truthy_value (EmailAttachment.path a)) as [p|] eqn:Hp.
  { destruct (processAttachment_path env existsSync a p w Hp)
      as (r0 & H0 & _ & H1 & H2 & H3 & H4).
    rewrite H0 in Hrun. injection Hrun as <- _.
    rewrite H1, H2, H3, H4. split; [reflexivity|discriminate]. }
  destruct (EmailAttachment.content a) as [c|] eqn:Hc.
  { destruct (processAttachment_content env existsSync a c w Hp Hc)
      as (r0 & H0 & _ & H1 & H2 & H3 & H4).
    rewrite H0 in Hrun. injection Hrun as <- _.
    rewrite H1, H2, H3. split; reflexivity. }
  destruct (EmailAttachment.stream a) as [s|] eqn:Hs.
  { destruct (processAttachment_stream env existsSync a s w Hp Hc Hs)
      as (r0 & H0 & _ & H1 & H2 & H3 & H4).
    rewrite H0 in Hrun. injection Hrun as <- _.
    rewrite H1, H2, H3, H4. split; [reflexivity|discriminate]. }
  rewrite (processAttachment_missing env existsSync a w Hp Hc Hs) in Hrun.
  discriminate.
Qed.

(** X9: when [processAttachments] returns, it returns one resolved
    attachment per input, in input order, each with the file name and the
    content type of its input (and its [cid] and disposition as
    [processAttachment] carries them). *)
Theorem processAttachments_in_order : forall
    (attachments : list EmailAttachment.t) (w w' : World T)
    (rs : list ProcessedAttachment.t),
  processAttachments' attachments w = (Normal rs, w') ->
  length rs = length attachments
  /\ forall i a r,
       attachments !! i = Some a -> rs !! i = Some r ->
       ProcessedAttachment.filename r = EmailAttachment.filename a
       /\ ProcessedAttachment.contentType r = EmailAttachment.contentType a
       /\ carried a r.
Proof.
  unfold processAttachments.
  induction attachments as [|a rest IH]; intros w w' rs Hrun.
  - injection Hrun as <- _. split; [reflexivity|]. intros i a r [=].
  - cbn [Array_map] in Hrun. unfold bind at 1 in Hrun.
    destruct (processAttachment' a w) as [[r0| |] w1] eqn:Ha; try discriminate.
    unfold bind at 1 in Hrun.
    destruct (Array_map _ rest w1) as [[rs0| |] w2] eqn:Hrest; try discriminate.
    injection Hrun as <- <-.
    destruct (IH _ _ _ Hrest) as [Hlen Hall].
    split; [cbn; now rewrite Hlen|].
    intros [|i] a' r; cbn.
    + intros [= <-] [= <-].
      pose proof (processAttachment_carried env existsSync a w r0 w1 Ha) as Hc.
      split; [apply Hc|]. split; [apply Hc|exact Hc].
    + apply Hall.
Qed.

Lemma firstSourceless_None attachments :
  firstSourceless attachments = None <->
  Forall (fun a => hasSource a = true) attachments.
Proof.
  unfold firstSourceless. induction attachments as [|a rest IH]; cbn.
  - split; [constructor|reflexivity].
  - destruct (hasSource a) eqn:Ha; cbn.
    + rewrite IH. split; [now constructor|]. intros H.
      now apply Forall_cons in H.
    + split; [discriminate|]. intros H. apply Forall_cons in H as [H _].
      congruence.
Qed.

(** The traversal stops at the first attachment without source. *)
Lemma processAttachments_throws : forall attachments (w : World T) a,
  firstSourceless attachments = Some a ->
  (processAttachments' attachments w).1
  = Throw (ErrorObj (missingSourceMessage a)).
Proof.
  unfold processAttachments, firstSourceless.
  induction attachments as [|a0 rest IH]; intros w a; [discriminate|].
  cbn [find]. destruct (hasSource a0) eqn:Ha; cbn [negb].
  - intros Hf. destruct (processAttachment_sourced a0 w Ha) as (r & Hr & _).
    cbn [Array_map]. unfold bind at 1. rewrite Hr.
    cbv beta iota. rewrite bind_ret_result. now rewrite (IH _ a Hf).
  - intros [= <-]. cbn [Array_map]. unfold bind at 1.
    now rewrite processAttachment_sourceless.
Qed.

(** X10: [processAttachments] fails exactly when some attachment has no
    source, and then with the missing-source error of the first such
    attachment; the attachments after it are not looked at. *)
Theorem processAttachments_first_sourceless
    (attachments : list EmailAttachment.t) (w : World T) :
  match firstSourceless attachments with
  | Some a =>
      (processAttachments' attachments w).1
      = Throw (ErrorObj (missingSourceMessage a))
  | None => exists rs, (processAttachments' attachments w).1 = Normal rs
  end.
Proof.
  destruct (firstSourceless attachments) as [a|] eqn:Hf.
  - now apply processAttachments_throws.
  - apply firstSourceless_None in Hf.
    destruct (processAttachments_sources env existsSync attachments w Hf)
      as (rs & w' & -> & _).
    now exists rs.
Qed.

Lemma missingFiles_cons a rest :
  missingFiles env existsSync (a :: rest)
  = match Js.truthy_value (EmailAttachment.path a) with
    | Some p =>
        if existsSync (resolveAttachmentPath env p)
        then missingFiles env existsSync rest
        else resolveAttachmentPath env p :: missingFiles env existsSync rest
    | None => missingFiles env existsSync rest
    end.
Proof.
  unfold missingFiles. cbn [omap list_omap].
  destruct (Js.truthy_value (EmailAttachment.path a)) as [p|];
    [destruct (existsSync (resolveAttachmentPath env p))|]; reflexivity.
Qed.

Lemma processAttachments_world : forall
    (attachments : list EmailAttachment.t) (w : World T),
  Forall (fun a => hasSource a = true) attachments ->
  (processAttachments' attachments w).2
  = {| transport := transport w;
       log := log w ++ (Warn <$> (notFoundWarning
                                  <$> missingFiles env existsSync attachments)) |}.
Proof.
  unfold processAttachments.
  induction attachments as [|a rest IH]; intros w Hsrc.
  - cbn. rewrite app_nil_r. now destruct w.
  - apply Forall_cons in Hsrc as [Ha Hrest].
    cbn [Array_map]. unfold bind at 1.
    destruct (processAttachment_sourced a w Ha) as (r & -> & _).
    cbv beta iota. rewrite bind_ret_world, (IH _ Hrest), missingFiles_cons.
    destruct (Js.truthy_value (EmailAttachment.path a)) as [p|];
      [destruct (existsSync (resolveAttachmentPath env p))|];
      cbn [transport log after]; rewrite ?fmap_cons, <- ?app_assoc;
      reflexivity.
Qed.

(** X11: when every attachment has a source, [processAttachments] logs
    one warning for each path attachment whose file does not exist, in
    input order, and nothing else; it does not touch the transport. In
    particular it logs nothing when all the files exist. *)
Theorem processAttachments_warnings (attachments : list EmailAttachment.t)
    (w : World T) :
  Forall (fun a => hasSource a = true) attachments ->
  log (processAttachments' attachments w).2
  = log w ++ (Warn <$> (notFoundWarning
                        <$> missingFiles env existsSync attachments))
  /\ transport (processAttachments' attachments w).2 = transport w
  /\ (Forall (fun a =>
                forall p, Js.truthy_value (EmailAttachment.path a) = Some p ->
                          existsSync (resolveAttachmentPath env p) = true)
             attachments ->
      (processAttachments' attachments w).2 = w).
Proof.
  intros Hsrc. rewrite (processAttachments_world attachments w Hsrc).
  split; [reflexivity|]. split; [reflexivity|].
  intros Hfiles.
  assert (Hnone : missingFiles env existsSync attachments = []).
  { clear Hsrc. induction Hfiles as [|a rest Ha _ IH]; [reflexivity|].
    rewrite missingFiles_cons.
    destruct (Js.truthy_value (EmailAttachment.path a)) as [p|]; [|exact IH].
    now rewrite (Ha p eq_refl). }
  rewrite Hnone. cbn. rewrite app_nil_r. now destruct w.
Qed.

(** *** [sendTemplatedEmails] *)

Lemma sends_app (l1 l2 : list Event) : sends (l1 ++ l2) = sends l1 + sends l2.
Proof. unfold sends. now rewrite filter_app, length_app. Qed.

Lemma sends_warnings (ws : list string) : sends (Warn <$> ws) = 0.
Proof. induction ws as [|x ws IH]; [reflexivity|exact IH]. Qed.

Lemma wellFormed_warnings (ws : list string) :
  Forall (wellFormedEvent config) (Warn <$> ws).
Proof. induction ws; constructor; [exact I|assumption]. Qed.

Lemma hasBody_template t to pas :
  hasContent t = true ->
  hasBody (templateMailOptions config t to pas) = true.
Proof.
  unfold hasContent, hasBody, templateMailOptions. cbn.
  destruct (Js.truthy_str (EmailTemplate.html t)) eqn:Hh; cbn.
  - now rewrite Hh.
  - now intros ->.
Qed.

Lemma sendable_spec d t :
  sendable d t = true <->
  (exists to, recipientOf d t = Some to)
  /\ hasContent t = true
  /\ firstSourceless (EmailTemplate.attachments t) = None.
Proof.
  unfold sendable. rewrite !andb_true_iff, firstSourceless_None.
  rewrite forallb_forall, Forall_forall.
  split.
  - intros ((Hto & Hc) & Hs). repeat split; try assumption.
    + destruct (recipientOf d t); [eauto|discriminate].
    + intros a Ha. apply Hs. now apply list_elem_of_In.
  - intros (Hto & Hc & Hs). repeat split; try assumption.
    + destruct Hto as [to ->]. reflexivity.
    + intros a Ha. apply Hs. now apply list_elem_of_In.
Qed.

(** A template that passes the checks: its attachments are resolved,
    with their warnings, and the message goes to the transport. *)
Lemma templateTask_sendable d t w :
  sendable d t = true ->
  exists to pas ws,
    recipientOf d t = Some to
    /\ templateTask' d t w
       = let w1 := {| transport := transport w; log := log w ++ (Warn <$> ws) |} in
         let m := templateMailOptions config t to pas in
         let (o, t') := sendMail m (transport w) in
         (match o with
          | Accepted info =>
              Normal {| TemplatedResult.success := true;
                        TemplatedResult.messageId :=
                          Some (SentMessageInfo.messageId info);
                        TemplatedResult.error := None;
                        TemplatedResult.templateId := EmailTemplate.id t;
                        TemplatedResult.to := joinRecipients to |}
          | Refused reason => Throw reason
          end,
          {| transport := t'; log := log w1 ++ [SendMail m] |}).
Proof.
  intros Hs. apply sendable_spec in Hs as ([to Hto] & Hc & Hsrc).
  apply firstSourceless_None in Hsrc.
  destruct (processAttachments_sources env existsSync _ w Hsrc)
    as (pas & w1 & Hrun & _).
  pose proof (processAttachments_world _ w Hsrc) as Hw.
  rewrite Hrun in Hw. cbn [snd] in Hw. subst w1.
  exists to, pas, (notFoundWarning
                   <$> missingFiles env existsSync (EmailTemplate.attachments t)).
  split; [exact Hto|].
  rewrite (templateTask_attachments config env existsSync sendMail d t w to Hto Hc).
  now rewrite Hrun.
Qed.

(** A template that fails a check is rejected, and the transport has not
    been called. *)
Lemma templateTask_unsendable d t w :
  sendable d t = false ->
  exists reason ws,
    templateTask' d t w
    = (Throw reason,
       {| transport := transport w; log := log w ++ (Warn <$> ws) |}).
Proof.
  intros Hs.
  assert (Hw : w = {| transport := transport w; log := log w ++ (Warn <$> []) |}).
  { cbn. rewrite app_nil_r. now destruct w. }
  destruct (recipientOf d t) as [to|] eqn:Hto.
  2:{ exists (ErrorObj (noRecipientMessage t)), []. rewrite <- Hw.
      now apply templateTask_no_recipient. }
  destruct (hasContent t) eqn:Hc.
  2:{ exists (ErrorObj (noContentMessage t)), []. rewrite <- Hw.
      now apply (templateTask_no_content config env existsSync sendMail d t w to). }
  destruct (firstSourceless (EmailTemplate.attachments t)) as [a|] eqn:Hf.
  2:{ exfalso. assert (sendable d t = true); [|congruence].
      apply sendable_spec. eauto. }
  pose proof (processAttachments_throws
                (EmailTemplate.attachments t) w a Hf) as Hthrow.
  destruct (processAttachments_quiet env existsSync (EmailTemplate.attachments t) w)
    as (c & w1 & ws & Hrun & _ & Htr & Hlog).
  rewrite Hrun in Hthrow. cbn [fst] in Hthrow. subst c.
  exists (ErrorObj (missingSourceMessage a)), ws.
  rewrite (templateTask_attachments config env existsSync sendMail d t w to Hto Hc).
  rewrite Hrun. f_equal. destruct w1. cbn in *. now subst.
Qed.

(** The events one template adds to the log. *)
Lemma templateTask_events d t w :
  exists events,
    log (templateTask' d t w).2 = log w ++ events
    /\ Forall (wellFormedEvent config) events
    /\ sends events = Nat.b2n (sendable d t).
Proof.
  destruct (sendable d t) eqn:Hs.
  - destruct (templateTask_sendable d t w Hs) as (to & pas & ws & Hto & ->).
    cbv zeta. destruct (sendMail _ _) as [o t'].
    exists ((Warn <$> ws) ++ [SendMail (templateMailOptions config t to pas)]).
    cbn [snd log]. split; [apply eq_sym, app_assoc|]. split.
    + apply Forall_app. split; [apply wellFormed_warnings|].
      constructor; [|constructor]. cbn.
      apply sendable_spec in Hs as (_ & Hc & _).
      split; [reflexivity|]. split; [|reflexivity].
      now apply hasBody_template.
    + now rewrite sends_app, sends_warnings.
  - destruct (templateTask_unsendable d t w Hs) as (reason & ws & ->).
    exists (Warn <$> ws). cbn [snd log]. split; [reflexivity|].
    split; [apply wellFormed_warnings|apply sends_warnings].
Qed.

(** The world a batch leaves is the one its tasks leave, started in
    input order. *)
Lemma Array_map_async_world {A B} (f : A -> M T B) (xs : list A) : forall w,
  (Array_map (fun x => async (f x)) xs w).2
  = fold_left (fun w x => (f x w).2) xs w.
Proof.
  induction xs as [|x rest IH]; intros w; [reflexivity|].
  cbn [Array_map fold_left]. unfold bind at 1. unfold async at 1.
  destruct (f x w) as [c w1]. cbv beta iota.
  rewrite bind_ret_world. apply IH.
Qed.

Lemma sendTemplatedEmails_world templates d schedule w :
  (sendTemplatedEmails' templates d schedule w).2
  = fold_left (fun w t => (templateTask' d t w).2) templates w.
Proof.
  unfold sendTemplatedEmails.
  rewrite <- (Array_map_async_world (templateTask' d)).
  unfold bind at 1.
  destruct (Array_map _ templates w) as [[ps|reason|] w']; try reflexivity.
  unfold bind, await, ret. now destruct (allSettled ps schedule).
Qed.

Lemma templated_events templates d : forall w,
  exists events,
    log (fold_left (fun w t => (templateTask' d t w).2) templates w)
    = log w ++ events
    /\ Forall (wellFormedEvent config) events
    /\ sends events = length (filter (fun t => sendable d t = true) templates).
Proof.
  induction templates as [|t rest IH]; intros w.
  - exists []. cbn. now rewrite app_nil_r.
  - cbn [fold_left].
    destruct (templateTask_events d t w) as (ev1 & Hl1 & Hw1 & Hs1).
    destruct (IH (templateTask' d t w).2) as (ev2 & Hl2 & Hw2 & Hs2).
    exists (ev1 ++ ev2). split; [|split].
    + rewrite Hl2, Hl1. apply eq_sym, app_assoc.
    + now apply Forall_app.
    + rewrite sends_app, Hs1, Hs2, filter_cons.
      destruct (sendable d t); [rewrite decide_True by reflexivity
                               |rewrite decide_False by discriminate];
        reflexivity.
Qed.

(** X12: [sendTemplatedEmails] calls the transport exactly once for each
    template that has a recipient, content and a source on every
    attachment, and never for another template: the number of calls it
    adds to the log is the number of such templates, whatever the
    transport answers and in whatever order the tasks settle. *)
Theorem sendTemplatedEmails_calls (templates : list EmailTemplate.t)
    (defaultTo : option Recipients) (schedule : list nat) (w : World T) :
  sends (log (sendTemplatedEmails' templates defaultTo schedule w).2)
  = sends (log w)
    + length (filter (fun t => sendable defaultTo t = true) templates).
Proof.
  rewrite sendTemplatedEmails_world.
  destruct (templated_events templates defaultTo w) as (events & -> & _ & <-).
  apply sends_app.
Qed.

(** X13: [sendTemplatedEmails] only adds warnings and transport calls to
    the log, and every message it hands to the transport comes from the
    configured sender, has a non-empty [html] or [text] body and carries
    an attachment list: an empty message is never sent. *)
Theorem sendTemplatedEmails_messages (templates : list EmailTemplate.t)
    (defaultTo : option Recipients) (schedule : list nat) (w : World T) :
  exists events,
    log (sendTemplatedEmails' templates defaultTo schedule w).2
    = log w ++ events
    /\ Forall (wellFormedEvent config) events.
Proof.
  rewrite sendTemplatedEmails_world.
  destruct (templated_events templates defaultTo w) as (events & H & Hw & _).
  eauto.
Qed.

Lemma reasonMessage_nonempty reason : reasonMessage reason <> "".
Proof. now destruct reason as [[|? ?]|[[|? ?]|]]. Qed.

Lemma templateTask_result d t w :
  match (templateTask' d t w).1 with
  | Normal v =>
      exists info to,
        recipientOf d t = Some to
        /\ v = {| TemplatedResult.success := true;
                  TemplatedResult.messageId :=
                    Some (SentMessageInfo.messageId info);
                  TemplatedResult.error := None;
                  TemplatedResult.templateId := EmailTemplate.id t;
                  TemplatedResult.to := joinRecipients to |}
  | Throw _ => True
  | Pending => False
  end.
Proof.
  destruct (sendable d t) eqn:Hs.
  - destruct (templateTask_sendable d t w Hs) as (to & pas & ws & Hto & ->).
    cbv zeta. destruct (sendMail _ _) as [[info|reason] t']; cbn; eauto.
  - now destruct (templateTask_unsendable d t w Hs) as (reason & ws & ->).
Qed.

(** X14: every record [sendTemplatedEmails] returns is either a success
    with a message id and no error, or a failure with no message id and
    an error text that is not empty. *)
Theorem sendTemplatedEmails_record_shape (templates : list EmailTemplate.t)
    (defaultTo : option Recipients) (schedule : list nat) (w : World T) :
  schedule ≡ₚ seq 0 (length templates) ->
  exists results,
    (sendTemplatedEmails' templates defaultTo schedule w).1 = Normal results
    /\ Forall
         (fun r =>
            (TemplatedResult.success r = true
             /\ Js.defined (TemplatedResult.messageId r) = true
             /\ TemplatedResult.error r = None)
            \/ (TemplatedResult.success r = false
                /\ TemplatedResult.messageId r = None
                /\ exists e, TemplatedResult.error r = Some e /\ e <> ""))
         results.
Proof.
  intros Hs.
  destruct (sendTemplatedEmails_run config env existsSync sendMail
              templates defaultTo w) as (results & w' & Hrun & Hlen & Hall).
  exists results. split.
  { rewrite Hrun; [reflexivity|]. intros i Hi. rewrite Hs. apply elem_of_seq. lia. }
  apply Forall_lookup. intros i r Hr.
  destruct (templates !! i) as [t|] eqn:Ht.
  2:{ apply lookup_ge_None in Ht. apply lookup_lt_Some in Hr. lia. }
  destruct (Hall i t Ht) as (wi & s & Hset & Hri).
  rewrite Hr in Hri. injection Hri as ->.
  pose proof (templateTask_result defaultTo t wi) as Hres.
  destruct ((templateTask' defaultTo t wi).1) as [v|reason|];
    [| |contradiction]; injection Hset as <-.
  - left. destruct Hres as (info & to & _ & ->). now repeat split.
  - right.
    destruct (templatedResult_rejected templates defaultTo i t reason Ht)
      as (Hf & He & _).
    split; [exact Hf|]. split; [reflexivity|].
    eexists. split; [exact He|apply reasonMessage_nonempty].
Qed.

Lemma templatedResult_failure templates d i t reason to :
  templates !! i = Some t ->
  recipientOf d t = Some to ->
  templatedResult templates d i (rejected reason)
  = failureRecord t to (reasonMessage reason).
Proof.
  intros Ht Hto. unfold templatedResult, failureRecord. rewrite Ht. cbn.
  f_equal. revert Hto.
  unfold recipientOf, truthy_recipients_value, or_recipients.
  destruct (EmailTemplate.to t) as [[[|? ?]|?]|], d as [[[|? ?]|?]|]; cbn;
    intros [=]; subst; reflexivity.
Qed.

(** X15: a template with a recipient and content, one of whose
    attachments has no source, fails as a whole: its record is the
    failure with the missing-source error of the first such attachment
    and the template's recipient, whatever the transport would answer. *)
Theorem sendTemplatedEmails_sourceless (templates : list EmailTemplate.t)
    (defaultTo : option Recipients) (schedule : list nat) (w : World T)
    (i : nat) (t : EmailTemplate.t) (to : Recipients) (a : EmailAttachment.t) :
  schedule ≡ₚ seq 0 (length templates) ->
  templates !! i = Some t ->
  recipientOf defaultTo t = Some to ->
  hasContent t = true ->
  firstSourceless (EmailTemplate.attachments t) = Some a ->
  exists results,
    (sendTemplatedEmails' templates defaultTo schedule w).1 = Normal results
    /\ results !! i = Some (failureRecord t to (missingSourceMessage a)).
Proof.
  intros Hs Ht Hto Hc Hf.
  destruct (sendTemplatedEmails_run config env existsSync sendMail
              templates defaultTo w) as (results & w' & Hrun & Hlen & Hall).
  exists results. split.
  { rewrite Hrun; [reflexivity|]. intros j Hj. rewrite Hs. apply elem_of_seq. lia. }
  destruct (Hall i t Ht) as (wi & s & Hset & ->). f_equal.
  rewrite (templateTask_attachments config env existsSync sendMail
             defaultTo t wi to Hto Hc) in Hset.
  pose proof (processAttachments_throws
                (EmailTemplate.attachments t) wi a Hf) as Hthrow.
  destruct (processAttachments' (EmailTemplate.attachments t) wi) as [c w1].
  cbn [fst] in Hthrow. subst c. injection Hset as <-.
  now rewrite (templatedResult_failure templates defaultTo i t _ to Ht Hto).
Qed.

(** X16: what [sendTemplatedEmails] returns for one template that has a
    recipient and content and whose attachments resolve: the success
    record when the transport accepts the message; when it refuses, the
    failure record with the message of the thrown value, or
    ['send failed'] when that message is missing or empty. *)
Theorem sendTemplatedEmails_single (defaultTo : option Recipients)
    (t : EmailTemplate.t) (w w1 : World T) (to : Recipients)
    (pas : list ProcessedAttachment.t) :
  recipientOf defaultTo t = Some to ->
  hasContent t = true ->
  processAttachments' (EmailTemplate.attachments t) w = (Normal pas, w1) ->
  (sendTemplatedEmails' [t] defaultTo [0] w).1
  = Normal
      [ match (sendMail (templateMailOptions config t to pas) (transport w1)).1 with
        | Accepted info =>
            {| TemplatedResult.success := true;
               TemplatedResult.messageId :=
                 Some (SentMessageInfo.messageId info);
               TemplatedResult.error := None;
               TemplatedResult.templateId := EmailTemplate.id t;
               TemplatedResult.to := joinRecipients to |}
        | Refused reason =>
            failureRecord t to
              match reason with
              | ErrorObj message => Js.or_str (Some message) "send failed"
              | NonError message => Js.or_str message "send failed"
              end
        end ].
Proof.
  intros Hto Hc Hatt.
  unfold sendTemplatedEmails. cbn [Array_map].
  unfold bind, async, ret, await.
  rewrite (templateTask_attachments config env existsSync sendMail
             defaultTo t w to Hto Hc), Hatt.
  cbv zeta. destruct (sendMail _ _) as [[info|reason] t']; cbn; [reflexivity|].
  do 2 f_equal.
  exact (templatedResult_failure [t] defaultTo 0 t reason to eq_refl Hto).
Qed.

(** *** The recipient filled in by [batchSendTemplates] *)

Lemma testRecipient_nonempty v : Js.str_empty (testRecipient v) = false.
Proof. now destruct v as [[|? ?]|]. Qed.

Lemma withRecipient_task recipient t :
  Js.str_empty recipient = false ->
  forall w,
    templateTask' None (withRecipient recipient t) w
    = templateTask' (Some (One recipient)) t w.
Proof.
  intros Hr w. unfold templateTask, withRecipient, noRecipientMessage,
    noContentMessage, templateMailOptions.
  cbn [EmailTemplate.id EmailTemplate.subject EmailTemplate.html
       EmailTemplate.text EmailTemplate.to EmailTemplate.attachments].
  assert (Hto :
    truthy_recipients_value
      (or_recipients
         (or_recipients (EmailTemplate.to t) (Some (One recipient))) None)
    = truthy_recipients_value
        (or_recipients (EmailTemplate.to t) (Some (One recipient)))).
  { unfold truthy_recipients_value, or_recipients.
    destruct (EmailTemplate.to t) as [[[|? ?]|?]|]; cbn; try reflexivity;
      rewrite !Hr; cbn; rewrite ?Hr; reflexivity. }
  now rewrite Hto.
Qed.

Lemma withRecipient_record recipient templates i s :
  Js.str_empty recipient = false ->
  i < length templates ->
  templatedResult (withRecipient recipient <$> templates) None i s
  = templatedResult templates (Some (One recipient)) i s.
Proof.
  intros Hr Hi. destruct s as [v|reason]; [reflexivity|].
  unfold templatedResult. rewrite list_lookup_fmap.
  destruct (lookup_lt_is_Some_2 templates i Hi) as [t ->]. cbn.
  f_equal.
  unfold or_recipients.
  destruct (EmailTemplate.to t) as [[[|? ?]|?]|]; cbn; try reflexivity;
    rewrite !Hr; cbn; rewrite ?Hr; reflexivity.
Qed.

Lemma Array_map_fmap_ext {A A' B} (f : A' -> M T B) (g : A -> M T B)
    (h : A -> A') (xs : list A) :
  (forall x w, f (h x) w = g x w) ->
  forall w, Array_map f (h <$> xs) w = Array_map g xs w.
Proof.
  intros Hext. induction xs as [|x rest IH]; intros w; [reflexivity|].
  rewrite fmap_cons. cbn [Array_map]. unfold bind at 1 3. rewrite Hext.
  destruct (g x w) as [[y|reason|] w1]; try reflexivity.
  unfold bind. now rewrite IH.
Qed.

Lemma filled_length {A} (slots : list (option (PromiseSettledResult A))) :
  forall rs, filled slots = Some rs -> length rs = length slots.
Proof.
  induction slots as [|[r|] rest IH]; intros rs; cbn.
  - now intros [= <-].
  - destruct (filled rest) as [rs'|]; [|discriminate].
    intros [= <-]. cbn. f_equal. now apply IH.
  - discriminate.
Qed.

Lemma allSettled_length {A} (promises : list (Completion A)) schedule rs :
  allSettled promises schedule = Normal rs -> length rs = length promises.
Proof.
  unfold allSettled. destruct (filled _) as [rs'|] eqn:E; [|discriminate].
  intros [= <-]. rewrite (filled_length _ _ E). unfold settle_all. clear E.
  assert (Hgen : forall slots,
    length (fold_left (settle promises) schedule slots) = length slots).
  { induction schedule as [|i rest IH]; intros slots; [reflexivity|].
    cbn [fold_left]. rewrite IH. apply settle_length. }
  now rewrite Hgen, length_replicate.
Qed.

Lemma Array_map_async_length {A B} (f : A -> M T B) (xs : list A) w ps w' :
  Array_map (fun x => async (f x)) xs w = (Normal ps, w') ->
  length ps = length xs.
Proof.
  intros Hrun.
  destruct (Array_map_async f xs w) as (ps0 & w0 & Hrun0 & Hall).
  rewrite Hrun in Hrun0. injection Hrun0 as <- <-.
  symmetry. exact (Forall2_length _ _ _ Hall).
Qed.

(** X17: [batchSendTemplates] fills in the recipient of every template
    ([template.to || recipient], the recipient being the environment's
    [TEST_RECIPIENT_EMAIL] or ['recipient@example.com']) and calls
    [sendTemplatedEmails] without default recipient. This is the same as
    calling [sendTemplatedEmails] on the templates as they are with that
    recipient as default: same results, same calls of the transport, same
    warnings, in every order of settlement. *)
Theorem batchSendTemplates_recipient (TEST_RECIPIENT_EMAIL : option string)
    (templates : list EmailTemplate.t) (schedule : list nat) (w : World T) :
  let recipient := testRecipient TEST_RECIPIENT_EMAIL in
  sendTemplatedEmails' (withRecipient recipient <$> templates) None schedule w
  = sendTemplatedEmails' templates (Some (One recipient)) schedule w.
Proof.
  intros recipient.
  pose proof (testRecipient_nonempty TEST_RECIPIENT_EMAIL) as Hr.
  fold recipient in Hr.
  unfold sendTemplatedEmails. unfold bind at 1 3.
  rewrite (Array_map_fmap_ext
             (fun t => async (templateTask' None t))
             (fun t => async (templateTask' (Some (One recipient)) t))
             (withRecipient recipient)).
  2:{ intros t w0. unfold async. now rewrite withRecipient_task. }
  destruct (Array_map _ templates w) as [[ps|reason|] w'] eqn:Hmap;
    try reflexivity.
  unfold bind, await, ret.
  destruct (allSettled ps schedule) as [rs|reason|] eqn:Hall; try reflexivity.
  f_equal. f_equal. apply imap_ext. intros i s Hs.
  apply withRecipient_record; [exact Hr|].
  apply lookup_lt_Some in Hs.
  rewrite (allSettled_length _ _ _ Hall) in Hs.
  now rewrite (Array_map_async_length _ _ _ _ _ Hmap) in Hs.
Qed.

(** *** The two batch operations, result by result *)

(** The promise of the element at an index is the outcome of its task in
    the world the tasks before it have left. *)
Lemma Array_map_async_at {A B} (f : A -> M T B) (xs : list A) : forall w,
  exists promises,
    Array_map (fun x => async (f x)) xs w
    = (Normal promises, fold_left (fun w x => (f x w).2) xs w)
    /\ length promises = length xs
    /\ forall i x,
         xs !! i = Some x -> promises !! i = Some (f x (worldAt f xs i w)).1.
Proof.
  induction xs as [|x rest IH]; intros w.
  - exists []. split; [reflexivity|]. split; [reflexivity|].
    intros i x Hx. rewrite lookup_nil in Hx. discriminate.
  - destruct (IH (f x w).2) as (ps & Hrun & Hlen & Hat).
    exists ((f x w).1 :: ps). split; [|split].
    + cbn [Array_map fold_left]. unfold bind at 1. unfold async at 1.
      destruct (f x w) as [c w1]. cbv beta iota.
      unfold bind. cbn [fst snd] in Hrun |- *. now rewrite Hrun.
    + cbn. now rewrite Hlen.
    + intros [|i] x' Hx.
      * injection Hx as <-. reflexivity.
      * cbn in Hx. rewrite lookup_cons. rewrite (Hat i x' Hx). reflexivity.
Qed.

Lemma batch_run_at {A B R} (task : A -> M T B)
    (final : nat -> PromiseSettledResult B -> R) (xs : list A) (w : World T) :
  (forall x wi, (task x wi).1 <> Pending) ->
  exists results,
    (forall schedule,
       (forall i, i < length xs -> i ∈ schedule) ->
       (let! promises := Array_map (fun x => async (task x)) xs in
        let! results := await (allSettled promises schedule) in
        ret (imap final results)) w
       = (Normal results, fold_left (fun w x => (task x w).2) xs w))
    /\ length results = length xs
    /\ forall i x,
         xs !! i = Some x ->
         exists s,
           settledResult (task x (worldAt task xs i w)).1 = Some s
           /\ results !! i = Some (final i s).
Proof.
  intros Hsettles.
  destruct (Array_map_async_at task xs w) as (promises & Hrun & Hlen & Hat).
  assert (Hnp : Forall (fun p => p <> Pending) promises).
  { apply Forall_lookup. intros i p Hp.
    destruct (xs !! i) as [x|] eqn:Hx.
    - rewrite (Hat i x Hx) in Hp. injection Hp as <-. apply Hsettles.
    - apply lookup_ge_None in Hx. apply lookup_lt_Some in Hp. lia. }
  assert (Hs : exists settled,
    Forall2 (fun p s => settledResult p = Some s) promises settled).
  { clear -Hnp. induction Hnp as [|p ps Hp _ [settled IH]].
    - exists []. constructor.
    - destruct p as [v|reason|]; [| |contradiction].
      + exists (fulfilled v :: settled). now constructor.
      + exists (rejected reason :: settled). now constructor. }
  destruct Hs as [settled Hps].
  exists (imap final settled). split; [|split].
  - intros schedule Hcov. unfold bind at 1. rewrite Hrun.
    unfold bind, await, ret.
    rewrite (allSettled_complete promises schedule settled Hps); [reflexivity|].
    intros i Hi. apply Hcov. lia.
  - rewrite length_imap, <- (Forall2_length _ _ _ Hps). exact Hlen.
  - intros i x Hx.
    destruct (Forall2_lookup_l _ _ _ _ _ Hps (Hat i x Hx)) as (s & Hs & Hset).
    exists s. split; [exact Hset|].
    rewrite list_lookup_imap, Hs. reflexivity.
Qed.

Lemma worldAt_S {A B} (task : A -> M T B) (xs : list A) (i : nat) (x : A)
    (w : World T) :
  xs !! i = Some x ->
  worldAt task xs (S i) w = (task x (worldAt task xs i w)).2.
Proof.
  intros Hx. unfold worldAt.
  rewrite (take_S_r _ _ _ Hx), fold_left_app. reflexivity.
Qed.

Lemma worldAt_rest {A B} (task : A -> M T B) (xs : list A) (i : nat)
    (w : World T) :
  fold_left (fun w x => (task x w).2) xs w
  = fold_left (fun w x => (task x w).2) (drop i xs) (worldAt task xs i w).
Proof.
  unfold worldAt. rewrite <- fold_left_app. now rewrite take_drop.
Qed.

Lemma worldAt_all {A B} (task : A -> M T B) (xs : list A) (w : World T) :
  worldAt task xs (length xs) w = fold_left (fun w x => (task x w).2) xs w.
Proof. unfold worldAt. now rewrite firstn_all. Qed.

Lemma worldAt_ext {A B C} (f : A -> M T B) (g : A -> M T C) (xs : list A)
    (i : nat) (w : World T) :
  (forall x w, (f x w).2 = (g x w).2) ->
  worldAt f xs i w = worldAt g xs i w.
Proof.
  intros Hfg. unfold worldAt. revert w.
  induction (take i xs) as [|x rest IH]; intros w; [reflexivity|].
  cbn [fold_left]. rewrite Hfg. apply IH.
Qed.

(** The callback of [sendBulkEmails] adds the recipient to the result of
    [sendEmail] and leaves the world [sendEmail] has left. *)
Lemma bulkTask_sendEmail email w :
  exists result,
    (sendEmail' email w).1 = Normal result
    /\ bulkTask' email w
       = (Normal {| BulkResult.success := SendResult.success result;
                    BulkResult.messageId := SendResult.messageId result;
                    BulkResult.error := SendResult.error result;
                    BulkResult.to := joinRecipients (EmailOptions.to email) |},
          (sendEmail' email w).2).
Proof.
  unfold bulkTask, bind, async, await, ret.
  rewrite (sendEmail_run config sendMail).
  destruct (sendMail _ _) as [o t1]. eexists. split; reflexivity.
Qed.

(** What [sendTemplatedEmails] returns, and the world it leaves. *)
Lemma sendTemplatedEmails_at templates d w :
  exists results,
    (forall schedule,
       (forall i, i < length templates -> i ∈ schedule) ->
       sendTemplatedEmails' templates d schedule w
       = (Normal results,
          fold_left (fun w t => (templateTask' d t w).2) templates w))
    /\ length results = length templates
    /\ forall i t,
         templates !! i = Some t ->
         exists s,
           settledResult
             (templateTask' d t (worldAt (templateTask' d) templates i w)).1
           = Some s
           /\ results !! i = Some (templatedResult templates d i s).
Proof.
  apply (batch_run_at (templateTask' d) (templatedResult templates d)).
  intros t wi. apply templateTask_settles.
Qed.

(** What [sendBulkEmails] returns, in terms of [sendEmail]. *)
Lemma sendBulkEmails_at emails w :
  exists results,
    (forall schedule,
       (forall i, i < length emails -> i ∈ schedule) ->
       sendBulkEmails' emails schedule w
       = (Normal results,
          fold_left (fun w email => (sendEmail' email w).2) emails w))
    /\ length results = length emails
    /\ forall i email,
         emails !! i = Some email ->
         exists result,
           (sendEmail' email (worldAt sendEmail' emails i w)).1 = Normal result
           /\ results !! i
              = Some {| BulkResult.success := SendResult.success result;
                        BulkResult.messageId := SendResult.messageId result;
                        BulkResult.error := SendResult.error result;
                        BulkResult.to :=
                          joinRecipients (EmailOptions.to email) |}.
Proof.
  assert (Hw : forall email w', (bulkTask' email w').2 = (sendEmail' email w').2).
  { intros email w'.
    destruct (bulkTask_sendEmail email w') as (result & _ & ->). reflexivity. }
  destruct (batch_run_at bulkTask' (bulkResult emails) emails w)
    as (results & Hrun & Hlen & Hat).
  { intros email wi.
    destruct (bulkTask_sendEmail email wi) as (result & _ & ->). discriminate. }
  exists results. split; [|split; [exact Hlen|]].
  - intros schedule Hcov. unfold sendBulkEmails. rewrite (Hrun schedule Hcov).
    f_equal. pose proof (worldAt_ext bulkTask' sendEmail' emails
                           (length emails) w Hw) as H.
    unfold worldAt in H. now rewrite firstn_all in H.
  - intros i email He. destruct (Hat i email He) as (s & Hset & Hr).
    rewrite (worldAt_ext bulkTask' sendEmail' emails i w Hw) in Hset.
    destruct (bulkTask_sendEmail email (worldAt sendEmail' emails i w))
      as (result & Hres & Hrun').
    rewrite Hrun' in Hset. injection Hset as <-.
    exists result. split; [exact Hres|exact Hr].
Qed.

(** C1 (amended): once every task has settled, in whatever order,
    [sendBulkEmails] and [sendTemplatedEmails] return an array as long as
    the input, the same array as when the tasks settle in input order,
    and leave the world their callbacks have left, run in input order.
    The i-th result of [sendBulkEmails] is the result of [sendEmail] on
    the i-th input, called in the world the calls for the inputs before
    it have left, together with that input's recipient. The i-th result
    of [sendTemplatedEmails] is the record of the i-th template's
    callback, run in the world the callbacks before it have left: the
    value it returns, which carries the id of the template, or when it
    throws the failure record made for that index, whose template id is
    the id of the template, except that for a template whose id is the
    empty string it is ['unknown']. *)
Theorem batch_results_in_input_order
    (emails : list EmailOptions.t) (templates : list EmailTemplate.t)
    (defaultTo : option Recipients) (schedule schedule' : list nat)
    (w : World T) :
  schedule ≡ₚ seq 0 (length emails) ->
  schedule' ≡ₚ seq 0 (length templates) ->
  (exists results,
     sendBulkEmails' emails schedule w
     = (Normal results, worldAt sendEmail' emails (length emails) w)
     /\ sendBulkEmails' emails (seq 0 (length emails)) w
        = (Normal results, worldAt sendEmail' emails (length emails) w)
     /\ length results = length emails
     /\ forall i email,
          emails !! i = Some email ->
          exists result,
            (sendEmail' email (worldAt sendEmail' emails i w)).1 = Normal result
            /\ results !! i
               = Some {| BulkResult.success := SendResult.success result;
                         BulkResult.messageId := SendResult.messageId result;
                         BulkResult.error := SendResult.error result;
                         BulkResult.to :=
                           joinRecipients (EmailOptions.to email) |})
  /\ (exists results,
        sendTemplatedEmails' templates defaultTo schedule' w
        = (Normal results,
           worldAt (templateTask' defaultTo) templates (length templates) w)
        /\ sendTemplatedEmails' templates defaultTo (seq 0 (length templates)) w
           = (Normal results,
              worldAt (templateTask' defaultTo) templates (length templates) w)
        /\ length results = length templates
        /\ forall i t,
             templates !! i = Some t ->
             exists r,
               results !! i = Some r
               /\ match (templateTask' defaultTo t
                           (worldAt (templateTask' defaultTo) templates i w)).1
                  with
                  | Normal value =>
                      r = value
                      /\ TemplatedResult.success r = true
                      /\ TemplatedResult.templateId r = EmailTemplate.id t
                  | Throw reason =>
                      r = templatedResult templates defaultTo i (rejected reason)
                      /\ TemplatedResult.success r = false
                      /\ TemplatedResult.templateId r
                         = (if Js.str_empty (EmailTemplate.id t)
                            then "unknown" else EmailTemplate.id t)
                  | Pending => False
                  end).
Proof.
  intros Hs Hs'. split.
  - destruct (sendBulkEmails_at emails w) as (results & Hrun & Hlen & Hat).
    exists results. rewrite worldAt_all.
    split; [|split; [|split]].
    + apply Hrun. now apply schedule_covers.
    + apply Hrun. intros i Hi. apply elem_of_seq. lia.
    + exact Hlen.
    + exact Hat.
  - destruct (sendTemplatedEmails_at templates defaultTo w)
      as (results & Hrun & Hlen & Hat).
    exists results. rewrite worldAt_all.
    split; [|split; [|split]].
    + apply Hrun. now apply schedule_covers.
    + apply Hrun. intros i Hi. apply elem_of_seq. lia.
    + exact Hlen.
    + intros i t Ht. destruct (Hat i t Ht) as (s & Hset & Hr).
      eexists. split; [exact Hr|].
      pose proof (templateTask_outcome config env existsSync sendMail defaultTo t
                    (worldAt (templateTask' defaultTo) templates i w)) as Hout.
      destruct ((templateTask' defaultTo t
                   (worldAt (templateTask' defaultTo) templates i w)).1)
        as [v|reason|]; [| |contradiction]; injection Hset as <-.
      * destruct Hout as (to & _ & Hok & Hid & _). now repeat split.
      * destruct (templatedResult_rejected templates defaultTo i t reason Ht)
          as (Hfail & _ & Hid & _).
        split; [reflexivity|]. split; [exact Hfail|exact Hid].
Qed.

(** C5 (amended): in [sendTemplatedEmails], for a template that has a
    recipient, its own or the default. With non-empty html, once the
    attachments are resolved the callback hands one message to the
    transport, which is in the log the batch leaves, with the html as its
    [html] field, and the text as its [text] field exactly when the text
    is non-empty too. With no html (absent or empty) and non-empty text,
    that message has the text as its [text] field and no [html] field.
    With neither, the result of the template is the failure record with
    the empty-content error, and its callback leaves the world as it
    found it: the transport is not called for this template. *)
Theorem template_body_selection (templates : list EmailTemplate.t)
    (defaultTo : option Recipients) (schedule : list nat) (w : World T)
    (i : nat) (t : EmailTemplate.t) (to : Recipients) :
  schedule ≡ₚ seq 0 (length templates) ->
  templates !! i = Some t ->
  recipientOf defaultTo t = Some to ->
  exists results r,
    sendTemplatedEmails' templates defaultTo schedule w
    = (Normal results,
       worldAt (templateTask' defaultTo) templates (length templates) w)
    /\ results !! i = Some r
    /\ match Js.truthy_value (EmailTemplate.html t),
             Js.truthy_value (EmailTemplate.text t) with
       | Some html, text =>
           forall processedAttachments w1,
             processAttachments' (EmailTemplate.attachments t)
               (worldAt (templateTask' defaultTo) templates i w)
             = (Normal processedAttachments, w1) ->
             exists mailOptions,
               log (worldAt (templateTask' defaultTo) templates (S i) w)
               = log w1 ++ [SendMail mailOptions]
               /\ SendMail mailOptions
                  ∈ log (worldAt (templateTask' defaultTo) templates
                           (length templates) w)
               /\ MailOptions.html mailOptions = Some html
               /\ MailOptions.text mailOptions = text
       | None, Some text =>
           forall processedAttachments w1,
             processAttachments' (EmailTemplate.attachments t)
               (worldAt (templateTask' defaultTo) templates i w)
             = (Normal processedAttachments, w1) ->
             exists mailOptions,
               log (worldAt (templateTask' defaultTo) templates (S i) w)
               = log w1 ++ [SendMail mailOptions]
               /\ SendMail mailOptions
                  ∈ log (worldAt (templateTask' defaultTo) templates
                           (length templates) w)
               /\ MailOptions.html mailOptions = None
               /\ MailOptions.text mailOptions = Some text
       | None, None =>
           r = failureRecord t to (noContentMessage t)
           /\ worldAt (templateTask' defaultTo) templates (S i) w
              = worldAt (templateTask' defaultTo) templates i w
       end.
Proof.
  intros Hs Ht Hto.
  destruct (sendTemplatedEmails_at templates defaultTo w)
    as (results & Hrun & _ & Hat).
  destruct (Hat i t Ht) as (s & Hset & Hr).
  exists results, (templatedResult templates defaultTo i s).
  rewrite worldAt_all.
  split; [apply Hrun; now apply schedule_covers|]. split; [exact Hr|].
  assert (Hin : forall m (w1 : World T),
    log (worldAt (templateTask' defaultTo) templates (S i) w)
    = log w1 ++ [SendMail m] ->
    SendMail m
    ∈ log (fold_left (fun w t => (templateTask' defaultTo t w).2) templates w)).
  { intros m w1 Hlog.
    rewrite (worldAt_rest (templateTask' defaultTo) templates (S i) w).
    destruct (templated_events (drop (S i) templates) defaultTo
                (worldAt (templateTask' defaultTo) templates (S i) w))
      as (events & -> & _).
    rewrite Hlog. apply elem_of_app. left. apply elem_of_app. right.
    apply list_elem_of_singleton. reflexivity. }
  rewrite (worldAt_S (templateTask' defaultTo) templates i t w Ht) in Hin |- *.
  pose proof (templateTask_body_selection config env existsSync sendMail
                defaultTo t (worldAt (templateTask' defaultTo) templates i w)
                to Hto) as Hbody.
  destruct (Js.truthy_value (EmailTemplate.html t)) as [html|].
  - intros pas w1 Hatt.
    destruct (Hbody pas w1 Hatt) as (m & Hlog & Hh & Htx).
    exists m. split; [exact Hlog|]. split; [exact (Hin m w1 Hlog)|].
    now split.
  - destruct (Js.truthy_value (EmailTemplate.text t)) as [text|].
    + intros pas w1 Hatt.
      destruct (Hbody pas w1 Hatt) as (m & Hlog & Hh & Htx).
      exists m. split; [exact Hlog|]. split; [exact (Hin m w1 Hlog)|].
      now split.
    + rewrite Hbody in Hset |- *. injection Hset as <-.
      split; [|reflexivity].
      now rewrite (templatedResult_failure templates defaultTo i t _ to Ht Hto).
Qed.

End MailerMore.

(** ** The command line program *)

Section ScriptsFacts.

Context {T : Type}.
Variable isEmail : string -> bool.
Variable zodMessage : ProcessEnv.t -> option string.
Variable createTransport : string -> string -> T.
Variable verify : T -> option Thrown * T.
Variable sendMail : MailOptions.t -> T -> SendOutcome * T.

Local Abbreviation loadConfig' := (loadConfig isEmail zodMessage).
Local Abbreviation main' :=
  (main isEmail zodMessage createTransport verify sendMail).

Lemma loadConfig_inl penv config :
  loadConfig' penv = inl config ->
  exists user password,
    ProcessEnv.GMAIL_USER penv = Some user
    /\ ProcessEnv.GMAIL_APP_PASSWORD penv = Some password
    /\ isEmail user = true
    /\ password <> ""
    /\ config = {| Config.GMAIL_USER := user;
                   Config.GMAIL_APP_PASSWORD := password;
                   Config.GMAIL_FROM_NAME :=
                     default "mailer" (ProcessEnv.GMAIL_FROM_NAME penv) |}.
Proof.
  unfold loadConfig, ConfigSchema_safeParse.
  destruct (ProcessEnv.GMAIL_USER penv) as [user|]; [|discriminate].
  destruct (ProcessEnv.GMAIL_APP_PASSWORD penv) as [password|]; [|discriminate].
  destruct (isEmail user) eqn:He; [|discriminate].
  destruct password as [|c password]; [cbn; discriminate|].
  cbn. intros [= <-]. exists user, (String c password).
  split; [reflexivity|]. split; [reflexivity|]. split; [exact He|].
  split; [intros [=]|reflexivity].
Qed.

(** The three ways [main] can go, with what it leaves. *)
Lemma main_cases penv :
  match loadConfig' penv with
  | inr _ => status (main' penv) = Exited 1 /\ mail (main' penv) = []
  | inl config =>
      match verify (GmailMailer_transporter createTransport config) with
      | (Some _, _) => status (main' penv) = Exited 1 /\ mail (main' penv) = []
      | (None, t1) =>
          mail (main' penv)
          = [SendMail (emailMailOptions config (mainOptions penv))]
          /\ status (main' penv)
             = match (sendMail (emailMailOptions config (mainOptions penv)) t1).1 with
               | Accepted _ => Returned
               | Refused _ => Exited 1
               end
      end
  end.
Proof.
  unfold main. destruct (loadConfig' penv) as [config|error]; [|now split].
  unfold verifyConnection.
  destruct (verify _) as [[error|] t1]; cbn [negb]; [now split|].
  fold (mainOptions penv). rewrite sendEmail_run. cbn [transport log].
  destruct (sendMail _ t1) as [[info|[message|v]] t2]; now split.
Qed.

(** X18: [main] hands at most one message to the transport, and only
    after the configuration has passed validation (the user is an e-mail
    address, the password is not empty) and the connection test of the
    transporter made for that account has succeeded. The message is the
    plain-text message built from the environment, with its defaults,
    sent under the configured name, ['mailer'] when none is set. *)
Theorem main_sends (penv : ProcessEnv.t) :
  mail (main' penv) = []
  \/ exists user password,
       ProcessEnv.GMAIL_USER penv = Some user
       /\ isEmail user = true
       /\ ProcessEnv.GMAIL_APP_PASSWORD penv = Some password
       /\ password <> ""
       /\ (verify (createTransport user password)).1 = None
       /\ mail (main' penv)
          = [SendMail
               {| MailOptions.from :=
                    {| MailOptions.name :=
                         default "mailer" (ProcessEnv.GMAIL_FROM_NAME penv);
                       MailOptions.address := user |};
                  MailOptions.to :=
                    Js.or_str (ProcessEnv.TEST_RECIPIENT_EMAIL penv)
                      "recipient@example.com";
                  MailOptions.subject :=
                    Js.or_str (ProcessEnv.TEST_SUBJECT penv) "default subject";
                  MailOptions.text :=
                    Some (Js.or_str (ProcessEnv.TEST_CONTENT penv)
                            "default content");
                  MailOptions.html := None;
                  MailOptions.attachments := None |}].
Proof.
  pose proof (main_cases penv) as H.
  destruct (loadConfig' penv) as [config|error] eqn:Hc; [|left; apply H].
  destruct (loadConfig_inl penv config Hc)
    as (user & password & Hu & Hp & He & Hne & ->).
  unfold GmailMailer_transporter in H. cbn [Config.GMAIL_USER
    Config.GMAIL_APP_PASSWORD] in H.
  destruct (verify (createTransport user password)) as [[error|] t1] eqn:Hv;
    [left; apply H|].
  right. exists user, password. rewrite Hv.
  destruct H as [Hmail _]. now repeat split.
Qed.

(** X19: for a connection test and a send that settle, what decides how
    [main] ends. It returns exactly when the configuration is valid, the
    connection test succeeds and the transport accepts the message. It
    ends the process with exit code 1 exactly when the configuration is
    invalid, or it is valid and the connection test fails, or both pass
    and the transport refuses the message. *)
Theorem main_status (penv : ProcessEnv.t) :
  (status (main' penv) = Returned <->
   exists config t1 info t2,
     loadConfig' penv = inl config
     /\ verify (GmailMailer_transporter createTransport config) = (None, t1)
     /\ sendMail (emailMailOptions config (mainOptions penv)) t1
        = (Accepted info, t2))
  /\ (status (main' penv) = Exited 1 <->
      (exists error, loadConfig' penv = inr error)
      \/ (exists config error t1,
            loadConfig' penv = inl config
            /\ verify (GmailMailer_transporter createTransport config)
               = (Some error, t1))
      \/ (exists config t1 reason t2,
            loadConfig' penv = inl config
            /\ verify (GmailMailer_transporter createTransport config)
               = (None, t1)
            /\ sendMail (emailMailOptions config (mainOptions penv)) t1
               = (Refused reason, t2))).
Proof.
  pose proof (main_cases penv) as H.
  destruct (loadConfig' penv) as [config|error] eqn:Hc.
  2:{ destruct H as [-> _]. split; split.
      - discriminate.
      - intros (? & ? & ? & ? & [=] & _).
      - intros _. left. eauto.
      - reflexivity. }
  destruct (verify _) as [[error|] t1] eqn:Hv.
  { destruct H as [-> _]. split; split.
    - discriminate.
    - intros (? & ? & ? & ? & [= <-] & Hv' & _). rewrite Hv in Hv'. discriminate.
    - intros _. right. left. exists config, error, t1. now rewrite Hv.
    - reflexivity. }
  destruct H as [_ ->].
  destruct (sendMail _ t1) as [[info|reason] t2] eqn:Hs; cbn; split; split.
  - intros _. exists config, t1, info, t2. now rewrite Hv.
  - reflexivity.
  - discriminate.
  - intros [(? & [=])|[(? & ? & ? & [= <-] & Hv')|(? & ? & ? & ? & [= <-] & Hv' & Hs')]].
    + rewrite Hv in Hv'. discriminate.
    + rewrite Hv in Hv'. injection Hv' as <-. rewrite Hs in Hs'. discriminate.
  - discriminate.
  - intros (? & ? & ? & ? & [= <-] & Hv' & Hs').
    rewrite Hv in Hv'. injection Hv' as <-. rewrite Hs in Hs'. discriminate.
  - intros _. right. right. exists config, t1, reason, t2. now rewrite Hv.
  - reflexivity.
Qed.

End ScriptsFacts.

(** ** The further properties on concrete inputs *)

Lemma batch_results_in_input_order_witness :
  [1; 0] ≡ₚ seq 0 (length twoEmails)
  /\ [1; 0] ≡ₚ seq 0 (length twoTemplates)
  /\ (exists results w',
        sendBulkEmails demoConfig refuseBad twoEmails [1; 0] world0
        = (Normal results, w')
        /\ length results = 2)
  /\ (exists results w',
        sendTemplatedEmails demoConfig demoEnv demoExists refuseBad
          twoTemplates opsDefault [1; 0] world0
        = (Normal results, w')
        /\ length results = 2).
Proof.
  split; [exact swapped_schedule|]. split; [exact swapped_schedule|].
  destruct (batch_results_in_input_order demoConfig demoEnv demoExists
              refuseBad twoEmails twoTemplates opsDefault [1; 0] [1; 0] world0
              swapped_schedule swapped_schedule)
    as [(rs & Hrun & _ & Hlen & _) (rs' & Hrun' & _ & Hlen' & _)].
  split; [exists rs|exists rs']; eexists; split; eassumption.
Defined.

Lemma template_body_selection_witness :
  [1; 0] ≡ₚ seq 0 (length twoTemplates)
  /\ twoTemplates !! 1 = Some bothBodiesTemplate
  /\ recipientOf opsDefault bothBodiesTemplate = Some (One "ops@example.com")
  /\ exists results w' r,
       sendTemplatedEmails demoConfig demoEnv demoExists acceptAll
         twoTemplates opsDefault [1; 0] world0
       = (Normal results, w')
       /\ results !! 1 = Some r
       /\ exists mailOptions,
            SendMail mailOptions ∈ log w'
            /\ MailOptions.html mailOptions = Some "<p>h</p>"
            /\ MailOptions.text mailOptions = Some "plain".
Proof.
  split; [exact swapped_schedule|]. split; [reflexivity|]. split; [reflexivity|].
  destruct (template_body_selection demoConfig demoEnv demoExists acceptAll
              twoTemplates opsDefault [1; 0] world0 1 bothBodiesTemplate
              (One "ops@example.com") swapped_schedule eq_refl eq_refl)
    as (results & r & Hrun & Hr & Hbody).
  exists results. eexists. exists r.
  split; [exact Hrun|]. split; [exact Hr|].
  destruct (Hbody [resolvedNoLogo]
              (after world0
                 (Warn "Warning: Attachment file not found: /tmp/assets/nologo.png"))
              eq_refl)
    as (m & _ & Hin & Hh & Htx).
  exists m. split; [exact Hin|]. split; [exact Hh|exact Htx].
Defined.

(** A template with neither recipient nor body: it fails with the
    missing-recipient error, not with the empty-content error. *)
Lemma missing_recipient_before_empty_content :
  EmailTemplate.to bareTemplate = None
  /\ EmailTemplate.html bareTemplate = None
  /\ EmailTemplate.text bareTemplate = None
  /\ (sendTemplatedEmails demoConfig demoEnv demoExists acceptAll
        [bareTemplate] None [0] world0).1
     = Normal [ {| TemplatedResult.success := false;
                   TemplatedResult.messageId := None;
                   TemplatedResult.error :=
                     Some "Template t0 has no recipient specified";
                   TemplatedResult.templateId := "t0";
                   TemplatedResult.to := "unknown" |} ]
  /\ noContentMessage bareTemplate = "Template t0 has no content (html or text)"
  /\ "Template t0 has no recipient specified" <> noContentMessage bareTemplate.
Proof. repeat split. discriminate. Qed.

Lemma resolveAttachmentPath_stable_witness :
  Js.occurs placeholder (resolveAttachmentPath demoEnv "{{assetsDir}}/logo.png")
  = false
  /\ resolveAttachmentPath demoEnv
       (resolveAttachmentPath demoEnv "{{assetsDir}}/logo.png")
     = resolveAttachmentPath demoEnv "{{assetsDir}}/logo.png".
Proof.
  split; [reflexivity|].
  exact (resolveAttachmentPath_stable demoEnv "{{assetsDir}}/logo.png" eq_refl).
Defined.

Lemma resolveAttachmentPath_in_assetsDir_witness :
  Path.isAbsolute (assetsDir demoEnv) = true
  /\ Js.has_char "$" (assetsDir demoEnv) = false
  /\ Js.occurs placeholder "/logo.png" = false
  /\ resolveAttachmentPath demoEnv (placeholder +:+ "/logo.png")
     = assetsDir demoEnv +:+ "/logo.png".
Proof.
  split; [reflexivity|]. split; [reflexivity|]. split; [reflexivity|].
  exact (resolveAttachmentPath_in_assetsDir demoEnv "/logo.png"
           eq_refl eq_refl eq_refl).
Defined.

Lemma resolveAttachmentPath_default_dir_witness :
  Js.truthy_str (ASSETS_DIR {| ASSETS_DIR := Some ""; cwd := "/work" |}) = false
  /\ Js.occurs placeholder "/logo.png" = false
  /\ resolveAttachmentPath {| ASSETS_DIR := Some ""; cwd := "/work" |}
       (placeholder +:+ "/logo.png")
     = Path.resolve "/work" ("./src" +:+ "/logo.png").
Proof.
  split; [reflexivity|]. split; [reflexivity|].
  exact (resolveAttachmentPath_default_dir
           {| ASSETS_DIR := Some ""; cwd := "/work" |} "/logo.png"
           eq_refl eq_refl).
Defined.

Lemma sendBulkEmails_result_witness :
  [1; 0] ≡ₚ seq 0 (length twoEmails)
  /\ exists results,
       (sendBulkEmails demoConfig refuseBad twoEmails [1; 0] world0).1
       = Normal results
       /\ forall i email o,
            twoEmails !! i = Some email ->
            (answers refuseBad (emailMailOptions demoConfig <$> twoEmails)
               (transport world0)).1 !! i = Some o ->
            results !! i = Some (bulkRecord email o).
Proof.
  split; [exact swapped_schedule|].
  exact (sendBulkEmails_result demoConfig refuseBad twoEmails [1; 0] world0
           swapped_schedule).
Defined.

Lemma one_task_schedule : [0] ≡ₚ seq 0 1.
Proof. apply Permutation_refl. Defined.

Lemma processAttachment_one_source_witness :
  processAttachment demoEnv demoExists logoAttachment world0
  = (Normal resolvedLogo, world0)
  /\ Nat.b2n (Js.defined (ProcessedAttachment.path resolvedLogo))
     + Nat.b2n (Js.defined (ProcessedAttachment.content resolvedLogo))
     + Nat.b2n (Js.defined (ProcessedAttachment.raw resolvedLogo)) = 1.
Proof.
  split; [reflexivity|].
  exact (proj1 (processAttachment_one_source demoEnv demoExists logoAttachment
                  world0 world0 resolvedLogo eq_refl)).
Defined.

Lemma processAttachments_in_order_witness :
  processAttachments demoEnv demoExists [noLogoAttachment; logoAttachment] world0
  = (Normal [resolvedNoLogo; resolvedLogo],
     after world0
       (Warn "Warning: Attachment file not found: /tmp/assets/nologo.png"))
  /\ length [resolvedNoLogo; resolvedLogo]
     = length [noLogoAttachment; logoAttachment].
Proof.
  split; [reflexivity|].
  exact (proj1 (processAttachments_in_order demoEnv demoExists
                  [noLogoAttachment; logoAttachment] world0 _
                  [resolvedNoLogo; resolvedLogo] eq_refl)).
Defined.

Lemma processAttachments_warnings_witness :
  Forall (fun a => hasSource a = true) [noLogoAttachment; logoAttachment]
  /\ log (processAttachments demoEnv demoExists
            [noLogoAttachment; logoAttachment] world0).2
     = log world0
       ++ (Warn <$> (notFoundWarning
                     <$> missingFiles demoEnv demoExists
                           [noLogoAttachment; logoAttachment])).
Proof.
  assert (H : Forall (fun a => hasSource a = true)
                [noLogoAttachment; logoAttachment])
    by (repeat constructor).
  split; [exact H|].
  exact (proj1 (processAttachments_warnings demoEnv demoExists
                  [noLogoAttachment; logoAttachment] world0 H)).
Defined.

Lemma sendTemplatedEmails_record_shape_witness :
  [1; 0] ≡ₚ seq 0 (length twoTemplates)
  /\ exists results,
       (sendTemplatedEmails demoConfig demoEnv demoExists refuseBad
          twoTemplates opsDefault [1; 0] world0).1
       = Normal results.
Proof.
  split; [exact swapped_schedule|].
  destruct (sendTemplatedEmails_record_shape demoConfig demoEnv demoExists
              refuseBad twoTemplates opsDefault [1; 0] world0 swapped_schedule)
    as (results & Hrun & _).
  now exists results.
Defined.

Lemma sendTemplatedEmails_sourceless_witness :
  [0] ≡ₚ seq 0 (length [sourcelessTemplate])
  /\ [sourcelessTemplate] !! 0 = Some sourcelessTemplate
  /\ recipientOf opsDefault sourcelessTemplate = Some (One "ops@example.com")
  /\ hasContent sourcelessTemplate = true
  /\ firstSourceless (EmailTemplate.attachments sourcelessTemplate)
     = Some (noAttachment "f.bin")
  /\ exists results,
       (sendTemplatedEmails demoConfig demoEnv demoExists acceptAll
          [sourcelessTemplate] opsDefault [0] world0).1
       = Normal results
       /\ results !! 0
          = Some (failureRecord sourcelessTemplate (One "ops@example.com")
                    (missingSourceMessage (noAttachment "f.bin"))).
Proof.
  split; [exact one_task_schedule|]. repeat (split; [reflexivity|]).
  exact (sendTemplatedEmails_sourceless demoConfig demoEnv demoExists acceptAll
           [sourcelessTemplate] opsDefault [0] world0 0 sourcelessTemplate
           (One "ops@example.com") (noAttachment "f.bin")
           one_task_schedule eq_refl eq_refl eq_refl eq_refl).
Defined.

Lemma sendTemplatedEmails_single_witness :
  recipientOf (Some (One "bad@x.com")) bothBodiesTemplate
  = Some (One "bad@x.com")
  /\ hasContent bothBodiesTemplate = true
  /\ processAttachments demoEnv demoExists
       (EmailTemplate.attachments bothBodiesTemplate) world0
     = (Normal [resolvedNoLogo],
        after world0
          (Warn "Warning: Attachment file not found: /tmp/assets/nologo.png"))
  /\ (sendTemplatedEmails demoConfig demoEnv demoExists refuseBad
        [bothBodiesTemplate] (Some (One "bad@x.com")) [0] world0).1
     = Normal [failureRecord bothBodiesTemplate (One "bad@x.com")
                 "550 mailbox unavailable"].
Proof.
  split; [reflexivity|]. split; [reflexivity|]. split; [reflexivity|].
  exact (sendTemplatedEmails_single demoConfig demoEnv demoExists refuseBad
           (Some (One "bad@x.com")) bothBodiesTemplate world0 _
           (One "bad@x.com") [resolvedNoLogo] eq_refl eq_refl eq_refl).
Defined.

(** The program on [demoProcessEnv]: one message, with the default
    recipient; the content, set to the empty string, is the default too. *)
Example main_scenario :
  let run := main (fun _ => true) (fun _ => None) (fun _ _ => 0)
               (fun t => (None, t)) acceptAll demoProcessEnv in
  status run = Returned
  /\ mail run
     = [SendMail
          {| MailOptions.from :=
               {| MailOptions.name := "mailer";
                  MailOptions.address := "sender@example.com" |};
             MailOptions.to := "recipient@example.com";
             MailOptions.subject := "hello";
             MailOptions.text := Some "default content";
             MailOptions.html := None;
             MailOptions.attachments := None |}].
Proof. split; reflexivity. Qed.
